(** * migrate-tool: the dependency-ordered schema and data migrator

    A shallow embedding of [migrate/migrate.go]: the foreign-key graph
    construction and depth-first ordering of [SortTablesByDependencies],
    the value clean-up and paging loop of [MigrateTableData], and the
    orchestration of [Migrate] with the foreign-key-check toggle.

    Go's [error] values are the formatted message strings the code builds
    with [fmt.Errorf]; a [map[string]bool] is a [gmap string bool] read
    with the zero value [false] for a missing key; Go's [int] is the
    64-bit two's-complement integer of the targets the tool is built for. *)

From Stdlib Require Import ZArith List Lia.
From Stdlib.Strings Require Import Ascii String Byte.
From stdpp Require Import base option list gmap strings pretty relations.

Local Open Scope string_scope.
Local Open Scope list_scope.
Local Open Scope Z_scope.

(** ** Results of fallible calls *)

(** What a Go call can do: return normally, return a non-nil [error],
    panic, or still be running when the fuel of the model is used up. *)
Inductive outcome (A : Type) : Type :=
  | Ok (a : A)
  | Err (e : string)
  | Panic (msg : string)
  | OutOfFuel.
Arguments Ok {A} a.
Arguments Err {A} e.
Arguments Panic {A} msg.
Arguments OutOfFuel {A}.

Definition obind {A B} (r : outcome A) (k : A → outcome B) : outcome B :=
  match r with
  | Ok a => k a
  | Err e => Err e
  | Panic m => Panic m
  | OutOfFuel => OutOfFuel
  end.

(** [for _, x := range xs { if err := body(x); err != nil { return err } }]
    over a threaded state. *)
Fixpoint forEach {A S} (body : A → S → outcome S) (xs : list A) (s : S)
  : outcome S :=
  match xs with
  | [] => Ok s
  | x :: rest => obind (body x s) (forEach body rest)
  end.

(** ** The source schema, as the inspector queries see it *)

Record ForeignKeyInfo := mkForeignKeyInfo {
  TableName : string;
  ColumnName : string;
  ReferencedTable : string;
  ReferencedColumn : string
}.

(** One row of the [KEY_COLUMN_USAGE] answer: three nullable strings. *)
Record fk_row := mkFkRow {
  fk_column : option string;
  fk_ref_table : option string;
  fk_ref_column : option string
}.

(** [sql.NullString.String]: the empty string when the column is NULL. *)
Definition null_string (s : option string) : string := default "" s.

(** The loop body of [GetTableForeignKeys]: a row is kept when both the
    referenced table and the referenced column are valid. *)
Definition fk_of_row (tableName : string) (r : fk_row) : list ForeignKeyInfo :=
  match fk_ref_table r, fk_ref_column r with
  | Some rt, Some rc =>
      [mkForeignKeyInfo tableName (null_string (fk_column r)) rt rc]
  | _, _ => []
  end.

(** [for rows.Next() { if err := rows.Scan(..); err != nil { return err }; .. }]:
    a row of a query answer is a scan error or the scanned cells, and the
    first scan error ends the call. *)
Fixpoint collect {A B} (msg : string) (keep : A → list B)
    (rows : list (string + A)) : outcome (list B) :=
  match rows with
  | [] => Ok []
  | inl e :: _ => Err (msg +:+ e)
  | inr a :: rest => obind (collect msg keep rest) (λ l, Ok (keep a ++ l))
  end.

Definition GetTableForeignKeys
    (fk_query : string → string + list (string + fk_row)) (tableName : string)
  : outcome (list ForeignKeyInfo) :=
  match fk_query tableName with
  | inl e =>
      Err ("failed to get foreign keys for table " +:+ tableName +:+ ": " +:+ e)
  | inr rows =>
      collect "failed to scan foreign key info: " (fk_of_row tableName) rows
  end.

(** ** SortTablesByDependencies *)

(** Reading a [map[string]bool]: a missing key reads as [false]. *)
Definition flag (m : gmap string bool) (k : string) : bool :=
  default false (m !! k).

(** Reading [dependencies[tableName]]: a missing key reads as the nil slice. *)
Definition deps_of (dependencies : gmap string (list string)) (t : string)
  : list string :=
  default [] (dependencies !! t).

(** The inner loop over [tables]: append the referenced table once if it is
    in the table list. *)
Fixpoint in_tables (tables : list string) (ref : string) : bool :=
  match tables with
  | [] => false
  | t :: rest => if String.eqb t ref then true else in_tables rest ref
  end.

(** The loop over [fks] building [deps] for one table. *)
Fixpoint table_deps (tables : list string) (tableName : string)
    (fks : list ForeignKeyInfo) : list string :=
  match fks with
  | [] => []
  | fk :: rest =>
      if String.eqb (ReferencedTable fk) tableName
      then table_deps tables tableName rest
      else if in_tables tables (ReferencedTable fk)
           then ReferencedTable fk :: table_deps tables tableName rest
           else table_deps tables tableName rest
  end.

(** The first loop of [SortTablesByDependencies]; [all] is the whole table
    list, [todo] what the loop still has to go through. *)
Fixpoint build_dependencies (fk_query : string → string + list (string + fk_row))
    (all todo : list string) (dependencies : gmap string (list string))
  : outcome (gmap string (list string)) :=
  match todo with
  | [] => Ok dependencies
  | tableName :: rest =>
      obind (GetTableForeignKeys fk_query tableName) (λ fks,
        build_dependencies fk_query all rest
          (<[tableName := table_deps all tableName fks]> dependencies))
  end.

(** The variables the closure [visit] captures and mutates. *)
Record sort_state := mkSortState {
  result : list string;
  visited : gmap string bool;
  temp : gmap string bool
}.

Definition circular (tableName : string) : string :=
  "circular dependency detected involving table " +:+ tableName.

(** The closure [visit]. The recursion is on the call depth that is left. *)
Fixpoint visit (dependencies : gmap string (list string)) (depth : nat)
    (tableName : string) (st : sort_state) : outcome sort_state :=
  match depth with
  | O => OutOfFuel
  | S depth' =>
      if flag (temp st) tableName then Err (circular tableName)
      else if flag (visited st) tableName then Ok st
      else
        let st1 := mkSortState (result st) (visited st)
                     (<[tableName := true]> (temp st)) in
        obind (forEach (visit dependencies depth')
                 (deps_of dependencies tableName) st1) (λ st2,
          Ok (mkSortState (result st2 ++ [tableName])
                (<[tableName := true]> (visited st2))
                (<[tableName := false]> (temp st2))))
  end.

(** The body of the last loop: [if !visited[tableName] { visit(tableName) }]. *)
Definition visit_unvisited (dependencies : gmap string (list string))
    (depth : nat) (tableName : string) (st : sort_state) : outcome sort_state :=
  if flag (visited st) tableName then Ok st
  else visit dependencies depth tableName st.

Definition topo_sort (dependencies : gmap string (list string))
    (tables : list string) : outcome (list string) :=
  obind (forEach (visit_unvisited dependencies (S (length tables))) tables
           (mkSortState [] ∅ ∅))
        (λ st, Ok (result st)).

Definition SortTablesByDependencies
    (fk_query : string → string + list (string + fk_row)) (tables : list string)
  : outcome (list string) :=
  obind (build_dependencies fk_query tables tables ∅) (λ dependencies,
    topo_sort dependencies tables).

(** Position of the first occurrence of a table in an order. *)
Fixpoint index_of (x : string) (l : list string) : option nat :=
  match l with
  | [] => None
  | y :: rest => if String.eqb y x then Some O else S <$> index_of x rest
  end.

(** [before l b a]: both occur in [l] and [index(b) < index(a)]. *)
Definition before (l : list string) (b a : string) : Prop :=
  ∃ i j, index_of b l = Some i ∧ index_of a l = Some j ∧ (i < j)%nat.

(** The retained edges: [a] depends on [b]. *)
Definition edge (dependencies : gmap string (list string)) (a b : string)
  : Prop :=
  b ∈ deps_of dependencies a.

Definition on_cycle (dependencies : gmap string (list string)) (t : string)
  : Prop :=
  tc (edge dependencies) t t.

Definition acyclic (dependencies : gmap string (list string)) : Prop :=
  ∀ t, ¬ on_cycle dependencies t.

(** The reading of the stability sentence: [t] is ready once the tables in
    [emitted] are out when it is not among them and all its dependencies
    are. *)
Definition ready (dependencies : gmap string (list string))
    (emitted : list string) (t : string) : Prop :=
  (t ∉ emitted) ∧ ∀ d, edge dependencies t d → d ∈ emitted.

(** Tables that are ready at the same point of the output come out in
    their input order. *)
Definition ready_tables_keep_input_order
    (fk_query : string → string + list (string + fk_row)) (tables : list string) : Prop :=
  ∀ dependencies order emitted rest a b,
    build_dependencies fk_query tables tables ∅ = Ok dependencies →
    SortTablesByDependencies fk_query tables = Ok order →
    order = emitted ++ rest →
    ready dependencies emitted a → ready dependencies emitted b →
    before tables a b → before order a b.

(** ** Machine integers *)

(** Go's [int] addition: the sum taken modulo [2^64] into
    [-2^63 .. 2^63 - 1]. *)
Definition wrap64 (z : Z) : Z := (z + 2 ^ 63) mod 2 ^ 64 - 2 ^ 63.

Definition max_int : Z := 2 ^ 63 - 1.
Definition min_int : Z := - 2 ^ 63.

(** ** Cell values and their clean-up *)

(** The two methods of [time.Time] the clean-up calls. *)
Class GoTime (Time : Type) := {
  IsZero : Time → bool;
  Year : Time → Z
}.

(** What [rows.Scan] stores in an [interface{}] cell. *)
Inductive value (Time : Type) : Type :=
  | VNil
  | VInt64 (n : Z)
  | VFloat64 (bits : Z)
  | VBool (b : bool)
  | VBytes (v : list byte)
  | VString (v : string)
  | VTime (v : Time).
Arguments VNil {Time}.
Arguments VInt64 {Time} n.
Arguments VFloat64 {Time} bits.
Arguments VBool {Time} b.
Arguments VBytes {Time} v.
Arguments VString {Time} v.
Arguments VTime {Time} v.

(** The messages handed to [dm.logger.Log], one constructor for each call
    with the arguments of its format string. *)
Inductive logmsg :=
  | LogStartMigration
  | LogFoundTables (n : nat) (tables : list string)
  | LogAnalyzing
  | LogSorted (sortedTables : list string)
  | LogDisabling
  | LogMigratingTable (i n : nat) (tableName : string)
  | LogReenabling
  | LogMigrationCompleted
  | LogStartTable (tableName : string)
  | LogCreatedSchema (tableName : string)
  | LogStartData (tableName : string)
  | LogRowsToMigrate (tableName : string) (totalRows : Z)
  | LogEmptyTable (tableName : string)
  | LogProgress (tableName : string) (migratedRows totalRows : Z)
  | LogCompletedData (tableName : string) (migratedRows : Z).

(** What a run does to the outside: log lines, page reads on the source,
    and the calls that reach the destination. *)
Inductive event (Time : Type) : Type :=
  | EvLog (m : logmsg)
  | EvSelect (columnNames tableName : string) (limit offset : Z)
  | EvCreateTable (createStmt : string)
  | EvDisableFK
  | EvEnableFK
  | EvPrepare (tableName columnNames placeholders : string)
  | EvInsert (tableName : string) (values : list (value Time))
  | EvStmtClose (tableName : string).
Arguments EvLog {Time} m.
Arguments EvSelect {Time} columnNames tableName limit offset.
Arguments EvCreateTable {Time} createStmt.
Arguments EvDisableFK {Time}.
Arguments EvEnableFK {Time}.
Arguments EvPrepare {Time} tableName columnNames placeholders.
Arguments EvInsert {Time} tableName values.
Arguments EvStmtClose {Time} tableName.

(** The source database as the queries of one run see it: every answer is
    an error or rows. The migrator only reads the source. *)
Record source (Time : Type) := mkSource {
  src_show_tables : string + list (string + string);
  src_show_create_table : string → string + string;
  src_count : string → string + Z;
  src_show_columns : string → string + list (string + option string);
  src_foreign_keys : string → string + list (string + fk_row);
  src_select : string → string → Z → Z → string + list (string + list (value Time))
}.
Arguments src_show_tables {Time} s.
Arguments src_show_create_table {Time} s tableName.
Arguments src_count {Time} s tableName.
Arguments src_show_columns {Time} s tableName.
Arguments src_foreign_keys {Time} s tableName.
Arguments src_select {Time} s columnNames tableName limit offset.

(** The destination database: whether a call succeeds ([None]) or fails
    with an error may depend on everything the run has done before. *)
Record destination (Time : Type) := mkDestination {
  dst_exec : list (event Time) → string → option string;
  dst_prepare : list (event Time) → string → string → string → option string;
  dst_insert : list (event Time) → string → list (value Time) → option string
}.
Arguments dst_exec {Time} d history stmt.
Arguments dst_prepare {Time} d history tableName columnNames placeholders.
Arguments dst_insert {Time} d history tableName values.

(** The fields of [MigrationConfig] the run reads. *)
Record MigrationConfig := mkMigrationConfig {
  BatchSize : Z;
  SkipTables : list string
}.

(** [strings.Repeat]. *)
Fixpoint repeat_string (s : string) (n : nat) : string :=
  match n with
  | O => ""
  | S n' => s +:+ repeat_string s n'
  end.

(** [placeholders[:len(placeholders)-1]] after [strings.Repeat("?,", n)]:
    the slice expression panics on the empty string. *)
Definition make_placeholders (n : nat) : outcome string :=
  let placeholders := repeat_string "?," n in
  match String.length placeholders with
  | O => Panic "runtime error: slice bounds out of range [:-1]"
  | S len => Ok (String.substring 0 len placeholders)
  end.

(** The skip test of [GetTables]. *)
Fixpoint is_skipped (skipTables : list string) (tableName : string) : bool :=
  match skipTables with
  | [] => false
  | skipTable :: rest =>
      if String.eqb tableName skipTable then true else is_skipped rest tableName
  end.

Section migrator.
Context {Time : Type} `{GoTime Time}.

(** The type switch on one scanned cell in [MigrateTableData]. *)
Definition sanitize (tableName colName : string) (val : value Time)
  : value Time :=
  match val with
  | VNil => VNil
  | VString v =>
      if String.eqb v "0000-00-00" || String.eqb v "0000-00-00 00:00:00"
      then if String.eqb tableName "AspNetUsers" && String.eqb colName "Birthday"
           then VString "1970-01-01"
           else VNil
      else val
  | VBytes v =>
      let str := string_of_list_byte v in
      if String.eqb str "0000-00-00" || String.eqb str "0000-00-00 00:00:00"
      then if String.eqb tableName "AspNetUsers" && String.eqb colName "Birthday"
           then VString "1970-01-01"
           else VNil
      else val
  | VTime v =>
      if IsZero v || (Year v =? 0)
      then if String.eqb tableName "AspNetUsers" && String.eqb colName "Birthday"
           then VString "1970-01-01"
           else VNil
      else val
  | _ => val
  end.

(** [for i, val := range values] with [colName := columns[i]]. *)
Definition sanitize_values (tableName : string) (columns : list string)
    (values : list (value Time)) : list (value Time) :=
  imap (λ i val, sanitize tableName (default "" (columns !! i)) val) values.

(** A zero date as the specification words it: the text of an all-zero
    date or datetime, the bytes of that text, or a date value that is
    zero or of year zero. *)
Definition zero_date (val : value Time) : Prop :=
  match val with
  | VString v => v = "0000-00-00" ∨ v = "0000-00-00 00:00:00"
  | VBytes v =>
      v = list_byte_of_string "0000-00-00" ∨
      v = list_byte_of_string "0000-00-00 00:00:00"
  | VTime v => IsZero v = true ∨ Year v = 0
  | _ => False
  end.

(** *** Calls with effects *)

(** A call takes the history of the run so far and returns its outcome
    and the extended history. *)
Definition M (A : Type) : Type :=
  list (event Time) → outcome A * list (event Time).

#[global] Instance M_ret : MRet M := λ A a tr, (Ok a, tr).

#[global] Instance M_bind : MBind M := λ A B k m tr,
  match m tr with
  | (Ok a, tr') => k a tr'
  | (Err e, tr') => (Err e, tr')
  | (Panic p, tr') => (Panic p, tr')
  | (OutOfFuel, tr') => (OutOfFuel, tr')
  end.

Definition lift {A} (r : outcome A) : M A := λ tr, (r, tr).

Definition emit (ev : event Time) : M unit := λ tr, (Ok tt, tr ++ [ev]).

(** [if err != nil { return fmt.Errorf(prefix + "%v", err) }]. *)
Definition wrap_err {A} (prefix : string) (m : M A) : M A := λ tr,
  match m tr with
  | (Err e, tr') => (Err (prefix +:+ e), tr')
  | r => r
  end.

(** A call whose returned [error] the caller inspects itself. *)
Definition returned {A} (m : M A) : M (string + A) := λ tr,
  match m tr with
  | (Ok a, tr') => (Ok (inr a), tr')
  | (Err e, tr') => (Ok (inl e), tr')
  | (Panic p, tr') => (Panic p, tr')
  | (OutOfFuel, tr') => (OutOfFuel, tr')
  end.

(** [defer cleanup]: runs when the function returns or panics. *)
Definition deferred {A} (cleanup : event Time) (m : M A) : M A := λ tr,
  match m tr with
  | (OutOfFuel, tr') => (OutOfFuel, tr')
  | (r, tr') => (r, tr' ++ [cleanup])
  end.

Definition Log (m : logmsg) : M unit := emit (EvLog m).

Variable config : MigrationConfig.
Variable src : source Time.
Variable dst : destination Time.

(** A call on the destination: it is made, then succeeds or fails. *)
Definition dest_call (ev : event Time)
    (answer : list (event Time) → option string) : M unit := λ tr,
  match answer tr with
  | None => (Ok tt, tr ++ [ev])
  | Some e => (Err e, tr ++ [ev])
  end.

Definition GetTables : outcome (list string) :=
  match src_show_tables src with
  | inl e => Err ("failed to get tables: " +:+ e)
  | inr rows =>
      collect "failed to scan table name: "
        (λ tableName,
           if is_skipped (SkipTables config) tableName then [] else [tableName])
        rows
  end.

Definition GetTableSchema (tableName : string) : outcome string :=
  match src_show_create_table src tableName with
  | inl e => Err ("failed to get schema for table " +:+ tableName +:+ ": " +:+ e)
  | inr createStmt => Ok createStmt
  end.

Definition CreateTable (createStmt : string) : M unit :=
  wrap_err "failed to create table: "
    (dest_call (EvCreateTable createStmt) (λ tr, dst_exec dst tr createStmt)).

Definition GetTableRowCount (tableName : string) : outcome Z :=
  match src_count src tableName with
  | inl e =>
      Err ("failed to get row count for table " +:+ tableName +:+ ": " +:+ e)
  | inr count => Ok count
  end.

Definition GetTableColumns (tableName : string) : outcome (list string) :=
  match src_show_columns src tableName with
  | inl e => Err ("failed to get columns for table " +:+ tableName +:+ ": " +:+ e)
  | inr rows =>
      collect "failed to scan column info: " (λ field, [null_string field]) rows
  end.

Definition DisableForeignKeyChecks : M unit :=
  wrap_err "failed to disable foreign key checks: "
    (dest_call EvDisableFK (λ tr, dst_exec dst tr "SET FOREIGN_KEY_CHECKS = 0")).

Definition EnableForeignKeyChecks : M unit :=
  wrap_err "failed to enable foreign key checks: "
    (dest_call EvEnableFK (λ tr, dst_exec dst tr "SET FOREIGN_KEY_CHECKS = 1")).

(** [rows.Scan(valuePtrs...)] into [len(columns)] cells: it fails when the
    row does not have that many columns. *)
Definition scan_row (columns : list string) (row : string + list (value Time))
  : outcome (list (value Time)) :=
  match row with
  | inl e => Err ("failed to scan row: " +:+ e)
  | inr cells =>
      if (length cells =? length columns)%nat then Ok cells
      else Err ("failed to scan row: sql: expected " +:+ pretty (length cells)
                +:+ " destination arguments in Scan, not "
                +:+ pretty (length columns))
  end.

(** The loop [for rows.Next()] over one page. *)
Fixpoint process_batch (tableName : string) (columns : list string)
    (rows : list (string + list (value Time))) (migratedRows : Z) : M Z :=
  match rows with
  | [] => mret migratedRows
  | row :: rest =>
      values ← lift (scan_row columns row);
      let values := sanitize_values tableName columns values in
      wrap_err "failed to insert row: "
        (dest_call (EvInsert tableName values)
           (λ tr, dst_insert dst tr tableName values));;
      process_batch tableName columns rest (wrap64 (migratedRows + 1))
  end.

Definition select_page (columnNames tableName : string) (offset : Z)
  : M (list (string + list (value Time))) :=
  emit (EvSelect columnNames tableName (BatchSize config) offset);;
  match src_select src columnNames tableName (BatchSize config) offset with
  | inl e =>
      lift (Err ("failed to select data from table " +:+ tableName +:+ ": " +:+ e))
  | inr rows => mret rows
  end.

(** The loop [for offset < totalRows]; [fuel] bounds the number of
    iterations. It returns [migratedRows]. *)
Fixpoint page_loop (fuel : nat) (tableName : string) (columns : list string)
    (columnNames : string) (totalRows offset migratedRows : Z) : M Z :=
  if offset <? totalRows then
    match fuel with
    | O => lift OutOfFuel
    | S fuel' =>
        rows ← select_page columnNames tableName offset;
        migratedRows ← process_batch tableName columns rows migratedRows;
        let offset := wrap64 (offset + BatchSize config) in
        Log (LogProgress tableName migratedRows totalRows);;
        page_loop fuel' tableName columns columnNames totalRows offset
          migratedRows
    end
  else mret migratedRows.

Definition MigrateTableData (fuel : nat) (tableName : string) : M unit :=
  Log (LogStartData tableName);;
  columns ← lift (GetTableColumns tableName);
  let columnNames := String.concat "`, `" columns in
  placeholders ← lift (make_placeholders (length columns));
  totalRows ← lift (GetTableRowCount tableName);
  Log (LogRowsToMigrate tableName totalRows);;
  if totalRows =? 0 then
    Log (LogEmptyTable tableName)
  else
    wrap_err "failed to prepare insert statement: "
      (dest_call (EvPrepare tableName columnNames placeholders)
         (λ tr, dst_prepare dst tr tableName columnNames placeholders));;
    deferred (EvStmtClose tableName)
      (migratedRows ← page_loop fuel tableName columns columnNames totalRows 0 0;
       Log (LogCompletedData tableName migratedRows)).

Definition MigrateTable (fuel : nat) (tableName : string) : M unit :=
  Log (LogStartTable tableName);;
  createStmt ← lift (GetTableSchema tableName);
  wrap_err ("failed to create table " +:+ tableName +:+ ": ")
    (CreateTable createStmt);;
  Log (LogCreatedSchema tableName);;
  wrap_err ("failed to migrate data for table " +:+ tableName +:+ ": ")
    (MigrateTableData fuel tableName).

(** The loop [for i, tableName := range sortedTables] of [Migrate]. *)
Fixpoint migrate_tables (fuel : nat) (n i : nat) (todo : list string) : M unit :=
  match todo with
  | [] => mret tt
  | tableName :: rest =>
      Log (LogMigratingTable (i + 1) n tableName);;
      r ← returned (MigrateTable fuel tableName);
      match r with
      | inl err =>
          returned EnableForeignKeyChecks;;
          lift (Err ("migration failed for table " +:+ tableName +:+ ": " +:+ err))
      | inr _ => migrate_tables fuel n (S i) rest
      end
  end.

Definition Migrate (fuel : nat) : M unit :=
  Log LogStartMigration;;
  tables ← wrap_err "failed to get tables: " (lift GetTables);
  Log (LogFoundTables (length tables) tables);;
  Log LogAnalyzing;;
  sortedTables ← wrap_err "failed to sort tables by dependencies: "
    (lift (SortTablesByDependencies (src_foreign_keys src) tables));
  Log (LogSorted sortedTables);;
  Log LogDisabling;;
  wrap_err "failed to disable foreign key checks: " DisableForeignKeyChecks;;
  migrate_tables fuel (length sortedTables) 0 sortedTables;;
  Log LogReenabling;;
  wrap_err "failed to enable foreign key checks: " EnableForeignKeyChecks;;
  Log LogMigrationCompleted.
End migrator.

(** [returns m]: the call [m] ends, with a result, an error or a panic,
    within the fuel it was given. *)
Definition returns {Time A} (m : @M Time A) : Prop :=
  ∀ tr, (m tr).1 ≠ OutOfFuel.

(** [emits P m]: the call [m] only extends the history, and only with
    events that satisfy [P]. *)
Definition emits {Time A} (P : event Time → Prop) (m : @M Time A) : Prop :=
  ∀ tr, ∃ ext, (m tr).2 = tr ++ ext ∧ Forall P ext.

(** *** Reading a history *)

Definition is_select {Time} (ev : event Time) : bool :=
  match ev with EvSelect _ _ _ _ => true | _ => false end.
Definition is_insert {Time} (ev : event Time) : bool :=
  match ev with EvInsert _ _ => true | _ => false end.
Definition is_prepare {Time} (ev : event Time) : bool :=
  match ev with EvPrepare _ _ _ => true | _ => false end.
Definition is_enable {Time} (ev : event Time) : bool :=
  match ev with EvEnableFK => true | _ => false end.
Definition is_disable {Time} (ev : event Time) : bool :=
  match ev with EvDisableFK => true | _ => false end.
Definition is_create {Time} (ev : event Time) : bool :=
  match ev with EvCreateTable _ => true | _ => false end.
Definition is_log {Time} (ev : event Time) : bool :=
  match ev with EvLog _ => true | _ => false end.

(** A call that reaches the destination. *)
Definition on_destination {Time} (ev : event Time) : bool :=
  match ev with
  | EvLog _ | EvSelect _ _ _ _ => false
  | _ => true
  end.

Definition count_events {Time} (p : event Time → bool) (tr : list (event Time))
  : nat :=
  length (filter (λ ev, p ev = true) tr).

(** The history of a run at the moment [Migrate] calls
    [DisableForeignKeyChecks]. *)
Definition before_disable {Time} (tables sortedTables : list string)
  : list (event Time) :=
  [EvLog LogStartMigration; EvLog (LogFoundTables (length tables) tables);
   EvLog LogAnalyzing; EvLog (LogSorted sortedTables); EvLog LogDisabling].

(** The [(limit, offset)] windows of the page reads, in order. *)
Definition page_reads {Time} (tr : list (event Time)) : list (Z * Z) :=
  flat_map (λ ev, match ev with
                  | EvSelect _ _ limit offset => [(limit, offset)]
                  | _ => []
                  end) tr.

(** The offsets of [n] successive pages of [batchSize] rows from [offset]. *)
Fixpoint offsets (n : nat) (offset batchSize : Z) : list Z :=
  match n with
  | O => []
  | S n' => offset :: offsets n' (offset + batchSize) batchSize
  end.

(** The rows handed to the insert statement, in order. *)
Definition inserted_rows {Time} (tr : list (event Time)) : list (list (value Time)) :=
  flat_map (λ ev, match ev with EvInsert _ values => [values] | _ => [] end) tr.

(** ** A small source for the examples *)

(** A calendar reading of [time.Time]: the zero time is 1 January of
    year 1, 00:00:00 UTC. *)
Record civil := mkCivil {
  civil_year : Z;
  civil_month : Z;
  civil_day : Z;
  civil_nanos : Z
}.

#[global] Instance civil_time : GoTime civil := {|
  IsZero c := (civil_year c =? 1) && (civil_month c =? 1) &&
              (civil_day c =? 1) && (civil_nanos c =? 0);
  Year c := civil_year c
|}.

Definition fk_to (column table : string) : string + fk_row :=
  inr (mkFkRow (Some column) (Some table) (Some "id")).

(** [Users] has no foreign key; [Orders] refers to [Users], to itself and to
    a table [Archive] that is not migrated; [A] and [B] refer to each
    other; [C] refers to [B2]. *)
Definition demo_foreign_keys (tableName : string)
  : string + list (string + fk_row) :=
  if String.eqb tableName "Orders" then
    inr [fk_to "user_id" "Users"; fk_to "parent_id" "Orders";
         fk_to "archive_id" "Archive"]
  else if String.eqb tableName "A" then inr [fk_to "b_id" "B"]
  else if String.eqb tableName "B" then inr [fk_to "a_id" "A"]
  else if String.eqb tableName "C" then inr [fk_to "b_id" "B2"]
  else inr [].

Definition demo_rows (n : nat) : list (list (value civil)) :=
  map (λ i, [VInt64 (Z.of_nat i); VString "0000-00-00"]) (seq 0 n).

(** [LIMIT limit OFFSET offset] over the rows of a table; a negative limit
    or offset is rejected by the server. *)
Definition limit_offset {A} (rows : list A) (limit offset : Z)
  : string + list (string + A) :=
  if (limit <? 0) || (offset <? 0) then inl "Error 1064: syntax error"
  else
    let n := Z.of_nat (length rows) in
    inr (map inr (take (Z.to_nat (Z.min limit n))
                    (drop (Z.to_nat (Z.min offset n)) rows))).

Definition demo_source (tables : list string) (n : nat) : source civil := {|
  src_show_tables := inr (map inr tables);
  src_show_create_table := λ t, inr ("CREATE TABLE `" +:+ t +:+ "` (..)");
  src_count := λ _, inr (Z.of_nat n);
  src_show_columns := λ _, inr [inr (Some "id"); inr (Some "Birthday")];
  src_foreign_keys := demo_foreign_keys;
  src_select := λ _ _ limit offset, limit_offset (demo_rows n) limit offset
|}.

Definition demo_config (batchSize : Z) : MigrationConfig :=
  mkMigrationConfig batchSize [].

(** A destination on which every call succeeds. *)
Definition willing : destination civil := {|
  dst_exec := λ _ _, None;
  dst_prepare := λ _ _ _ _, None;
  dst_insert := λ _ _ _, None
|}.

(** The dependency maps of the examples. *)
Definition orders_users_deps : gmap string (list string) :=
  <["Users" := []]> (<["Orders" := ["Users"]]> ∅).

Definition a_b_deps : gmap string (list string) :=
  <["B" := ["A"]]> (<["A" := ["B"]]> ∅).

Definition c_a2_b2_deps : gmap string (list string) :=
  <["B2" := []]> (<["A2" := []]> (<["C" := ["B2"]]> ∅)).

Definition x_y_deps : gmap string (list string) :=
  <["Y" := []]> (<["X" := []]> ∅).

(** A source whose row count is the largest [int] although it holds three
    rows, and a source that answers any window, negative ones too. *)
Definition overfull_source : source civil := {|
  src_show_tables := inr [inr "Users"];
  src_show_create_table := λ t, inr ("CREATE TABLE `" +:+ t +:+ "` (..)");
  src_count := λ _, inr max_int;
  src_show_columns := λ _, inr [inr (Some "id"); inr (Some "Birthday")];
  src_foreign_keys := demo_foreign_keys;
  src_select := λ _ _ limit offset, limit_offset (demo_rows 3) limit offset
|}.

Definition lenient_source : source civil := {|
  src_show_tables := inr [inr "Users"];
  src_show_create_table := λ t, inr ("CREATE TABLE `" +:+ t +:+ "` (..)");
  src_count := λ _, inr 1;
  src_show_columns := λ _, inr [inr (Some "id"); inr (Some "Birthday")];
  src_foreign_keys := demo_foreign_keys;
  src_select := λ _ _ limit offset, inr []
|}.

(** A destination that rejects every row and then the statement that
    switches the foreign-key checks back on. *)
Definition failing : destination civil := {|
  dst_exec := λ _ stmt,
    if String.eqb stmt "SET FOREIGN_KEY_CHECKS = 1"
    then Some "server has gone away" else None;
  dst_prepare := λ _ _ _ _, None;
  dst_insert := λ _ _ _, Some "disk full"
|}.

(** The page of 100 rows at [offset] of the 250 example rows. *)
Definition page_of_250 (offset : Z) : list (list (value civil)) :=
  take 100 (drop (Z.to_nat offset) (demo_rows 250)).

(** The readings of the sentences that the code does not bear out. *)

(** When a table has failed and the call that switches the checks back on
    fails too, a log line follows that call. *)
Definition reenable_failure_is_logged {Time} `{GoTime Time}
    (config : MigrationConfig) (src : source Time) (dst : destination Time)
    (fuel : nat) : Prop :=
  ∀ e tr pre post err,
    Migrate config src dst fuel [] = (Err e, tr) →
    tr = pre ++ EvEnableFK :: post →
    dst_exec dst pre "SET FOREIGN_KEY_CHECKS = 1" = Some err →
    ∃ m, EvLog m ∈ post.

(** The migration of a table never ends. *)
Definition never_ends {Time} `{GoTime Time}
    (config : MigrationConfig) (src : source Time) (dst : destination Time)
    (tableName : string) : Prop :=
  ∀ fuel history,
    (MigrateTableData config src dst fuel tableName history).1 = OutOfFuel.

(** With a non-positive batch size and a positive row count the migration
    of a table never ends. *)
Definition nonpositive_batch_never_ends {Time} `{GoTime Time}
    (config : MigrationConfig) (src : source Time) (dst : destination Time)
    (tableName : string) : Prop :=
  ∀ totalRows,
    BatchSize config ≤ 0 → src_count src tableName = inr totalRows →
    0 < totalRows → never_ends config src dst tableName.

(** With a row count and a batch size of at least 1, a run reads at most
    [ceil(totalRows / BatchSize)] pages, and exactly that many when it
    succeeds. *)
Definition reads_ceil_pages {Time} `{GoTime Time}
    (config : MigrationConfig) (src : source Time) (dst : destination Time)
    (tableName : string) : Prop :=
  ∀ totalRows fuel r tr,
    src_count src tableName = inr totalRows →
    1 ≤ totalRows → 1 ≤ BatchSize config →
    MigrateTableData config src dst fuel tableName [] = (r, tr) →
    let pages :=
      Z.to_nat ((totalRows + BatchSize config - 1) / BatchSize config) in
    (length (page_reads tr) ≤ pages)%nat ∧
    (r = Ok tt → length (page_reads tr) = pages).

(** ** The invariant of the depth-first ordering *)

Section topo_sort_invariant.
Variable dependencies : gmap string (list string).
Variable tables : list string.

Local Abbreviation E := (edge dependencies).

(** What holds of the captured variables between two calls, with [stack]
    the tables whose visit is in progress. *)
Record sort_inv (stack : list string) (st : sort_state) : Prop := mkInv {
  inv_visited : ∀ k, flag (visited st) k = true ↔ k ∈ result st;
  inv_nodup : NoDup (result st);
  inv_order : ∀ a b, a ∈ result st → E a b → before (result st) b a;
  inv_temp : ∀ k, flag (temp st) k = true ↔ k ∈ stack;
  inv_disjoint : ∀ k, k ∈ stack → k ∉ result st;
  inv_in_tables : ∀ k, k ∈ result st → k ∈ tables
}.

(** What a successful visit of the tables [roots] has done. *)
Definition sort_grown (roots : list string) (st st' : sort_state) : Prop :=
  (∀ r, r ∈ roots → r ∈ result st') ∧
  ∃ suffix, result st' = result st ++ suffix ∧
    ∀ x, x ∈ suffix → ∃ r, r ∈ roots ∧ rtc E r x.

Definition sort_post (stack roots : list string) (st : sort_state)
    (r : outcome sort_state) : Prop :=
  match r with
  | Ok st' => sort_inv stack st' ∧ sort_grown roots st st'
  | Err e => ∃ c, e = circular c ∧ on_cycle dependencies c
  | Panic _ | OutOfFuel => False
  end.
End topo_sort_invariant.

Arguments inv_visited {dependencies tables stack st} _ k.
Arguments inv_nodup {dependencies tables stack st} _.
Arguments inv_order {dependencies tables stack st} _ a b _ _.
Arguments inv_temp {dependencies tables stack st} _ k.
Arguments inv_disjoint {dependencies tables stack st} _ k _.
Arguments inv_in_tables {dependencies tables stack st} _ k _.

(** Further example databases: a source on which the foreign keys of
    [Orders] cannot be read, a source that lists no column, and
    destinations that refuse to prepare a statement, reject the row whose
    first cell is 1, or refuse to disable the foreign-key checks. *)
Definition unreadable_keys_source : source civil := {|
  src_show_tables := inr [inr "Users"; inr "Orders"; inr "Items"];
  src_show_create_table := λ t, inr ("CREATE TABLE `" +:+ t +:+ "` (..)");
  src_count := λ _, inr 0;
  src_show_columns := λ _, inr [inr (Some "id"); inr (Some "Birthday")];
  src_foreign_keys := λ t,
    if String.eqb t "Orders" then inl "access denied" else inr [];
  src_select := λ _ _ _ _, inr []
|}.

Definition no_columns_source : source civil := {|
  src_show_tables := inr [inr "Users"];
  src_show_create_table := λ t, inr ("CREATE TABLE `" +:+ t +:+ "` (..)");
  src_count := λ _, inr 3;
  src_show_columns := λ _, inr [];
  src_foreign_keys := λ _, inr [];
  src_select := λ _ _ _ _, inr []
|}.

Definition refusing_prepare : destination civil := {|
  dst_exec := λ _ _, None;
  dst_prepare := λ _ _ _ _, Some "unknown column";
  dst_insert := λ _ _ _, None
|}.

Definition picky : destination civil := {|
  dst_exec := λ _ _, None;
  dst_prepare := λ _ _ _ _, None;
  dst_insert := λ _ _ values,
    match values with
    | VInt64 1 :: _ => Some "duplicate key"
    | _ => None
    end
|}.

Definition no_toggle : destination civil := {|
  dst_exec := λ _ stmt,
    if String.eqb stmt "SET FOREIGN_KEY_CHECKS = 0"
    then Some "access denied" else None;
  dst_prepare := λ _ _ _ _, None;
  dst_insert := λ _ _ _, None
|}.

(** A source whose answers hold a row that does not scan, and a
    destination on which every table exists already. *)
Definition scan_error_source : source civil := {|
  src_show_tables := inr [inr "Users"; inl "invalid connection"; inr "Orders"];
  src_show_create_table := λ _, inl "table is gone";
  src_count := λ _, inr 0;
  src_show_columns := λ _, inr [inr (Some "id"); inl "invalid connection"];
  src_foreign_keys := λ _,
    inr [inr (mkFkRow (Some "user_id") (Some "Users") (Some "id"));
         inl "invalid connection"];
  src_select := λ _ _ _ _, inr []
|}.

Definition already_there : destination civil := {|
  dst_exec := λ _ stmt,
    if String.prefix "CREATE" stmt then Some "table already exists" else None;
  dst_prepare := λ _ _ _ _, None;
  dst_insert := λ _ _ _, None
|}.

(** ** Further readings of a history and of the source *)

(** Between two visits of the last loop when no visit is in progress:
    [result] is [done], [visited] marks exactly its tables and no table is
    marked in [temp]. *)
Definition settled (done : list string) (st : sort_state) : Prop :=
  result st = done ∧
  (∀ k, flag (visited st) k = true ↔ k ∈ done) ∧
  (∀ k, flag (temp st) k = false).

Definition is_close {Time} (ev : event Time) : bool :=
  match ev with EvStmtClose _ => true | _ => false end.

(** The statements handed to [CreateTable], in order. *)
Definition created_statements {Time} (tr : list (event Time)) : list string :=
  flat_map (λ ev, match ev with EvCreateTable s => [s] | _ => [] end) tr.

(** The creation statement the source gives for a table. *)
Definition schema_of {Time} (src : source Time) (tableName : string) : string :=
  match src_show_create_table src tableName with
  | inl _ => ""
  | inr createStmt => createStmt
  end.

(** ** Facts about flags and positions *)

Lemma flag_insert_eq (m : gmap string bool) k v : flag (<[k := v]> m) k = v.
Proof. unfold flag. by rewrite lookup_insert_eq. Qed.

Lemma flag_insert_ne (m : gmap string bool) k k' v :
  k ≠ k' → flag (<[k := v]> m) k' = flag m k'.
Proof. intros Hne. unfold flag. by rewrite lookup_insert_ne. Qed.

Lemma flag_empty k : flag ∅ k = false.
Proof. reflexivity. Qed.

Lemma index_of_is_Some x l : x ∈ l → ∃ i, index_of x l = Some i ∧ (i < length l)%nat.
Proof.
  induction l as [|y l IH]; intros Hin.
  - by apply elem_of_nil in Hin.
  - simpl. destruct (String.eqb_spec y x) as [->|Hne].
    + exists O. split; [done | lia].
    + apply elem_of_cons in Hin as [->|Hin]; [done |].
      destruct (IH Hin) as (i & -> & Hi). exists (S i). split; [done | lia].
Qed.

Lemma index_of_elem x l i : index_of x l = Some i → x ∈ l ∧ (i < length l)%nat.
Proof.
  revert i. induction l as [|y l IH]; intros i; simpl; [done |].
  destruct (String.eqb_spec y x) as [->|Hne].
  - intros [= <-]. split; [left | lia].
  - destruct (index_of x l) as [j|]; simpl; [| done].
    intros [= <-]. destruct (IH j eq_refl). split; [by right | lia].
Qed.

Lemma index_of_app_l x l l' i :
  index_of x l = Some i → index_of x (l ++ l') = Some i.
Proof.
  revert i. induction l as [|y l IH]; intros i; simpl; [done |].
  destruct (String.eqb y x); [done |].
  destruct (index_of x l) as [j|]; simpl; [| done].
  intros [= <-]. by rewrite (IH j).
Qed.

Lemma index_of_app_r x l l' :
  x ∉ l → index_of x (l ++ l') = (λ i, length l + i)%nat <$> index_of x l'.
Proof.
  induction l as [|y l IH]; intros Hnin; simpl.
  - by destruct (index_of x l').
  - apply not_elem_of_cons in Hnin as [Hne Hnin].
    destruct (String.eqb_spec y x) as [->|_]; [done |].
    rewrite (IH Hnin). by destruct (index_of x l').
Qed.

Lemma before_app_l l l' b a : before l b a → before (l ++ l') b a.
Proof.
  intros (i & j & Hi & Hj & Hlt). exists i, j.
  eauto using index_of_app_l.
Qed.

Lemma before_snoc l b a : b ∈ l → a ∉ l → before (l ++ [a]) b a.
Proof.
  intros Hb Ha. destruct (index_of_is_Some b l Hb) as (i & Hi & Hlt).
  exists i, (length l). split; [by apply index_of_app_l |].
  split; [| done]. rewrite index_of_app_r by done. simpl.
  rewrite String.eqb_refl. simpl. f_equal. lia.
Qed.

Lemma before_split l1 l2 a b : a ∈ l1 → b ∉ l1 → b ∈ l2 → before (l1 ++ l2) a b.
Proof.
  intros Ha Hb Hb2. destruct (index_of_is_Some a l1 Ha) as (i & Hi & Hlt).
  destruct (index_of_is_Some b l2 Hb2) as (j & Hj & _).
  exists i, (length l1 + j)%nat. split; [by apply index_of_app_l |].
  split; [| lia]. rewrite index_of_app_r by done. by rewrite Hj.
Qed.

Lemma before_irrefl l a : ¬ before l a a.
Proof. intros (i & j & Hi & Hj & Hlt). rewrite Hi in Hj. injection Hj. lia. Qed.

Lemma before_trans l a b c : before l a b → before l b c → before l a c.
Proof.
  intros (i & j & Hi & Hj & Hij) (j' & k & Hj' & Hk & Hjk).
  rewrite Hj in Hj'. injection Hj' as <-. exists i, k. repeat split; [done .. | lia].
Qed.

Lemma in_tables_spec tables ref : in_tables tables ref = true ↔ ref ∈ tables.
Proof.
  induction tables as [|t tables IH]; simpl.
  - split; [done | by intros ?%elem_of_nil].
  - destruct (String.eqb_spec t ref) as [->|Hne].
    + split; [intros _; left | done].
    + rewrite IH. split; [by right |].
      intros [?|?]%elem_of_cons; [congruence | done].
Qed.

Lemma forEach_app {A S} (body : A → S → outcome S) xs ys s :
  forEach body (xs ++ ys) s = obind (forEach body xs s) (forEach body ys).
Proof.
  revert s. induction xs as [|x xs IH]; intros s; simpl; [done |].
  destruct (body x s); simpl; auto.
Qed.

(** ** The depth-first ordering *)

Section topo_sort_proofs.
Variable dependencies : gmap string (list string).
Variable tables : list string.
Hypothesis edges_in_tables : ∀ a b, edge dependencies a b → b ∈ tables.

Local Abbreviation E := (edge dependencies).
Local Abbreviation inv := (sort_inv dependencies tables).
Local Abbreviation grown := (sort_grown dependencies).
Local Abbreviation visit_post := (sort_post dependencies tables).

Lemma grown_refl st : grown [] st st.
Proof.
  split; [by intros r ?%elem_of_nil |].
  exists []. split; [by rewrite app_nil_r | by intros x ?%elem_of_nil].
Qed.

Lemma grown_cons x xs st st' st'' :
  grown [x] st st' → grown xs st' st'' → grown (x :: xs) st st''.
Proof.
  intros [Hx (s1 & E1 & R1)] [Hxs (s2 & E2 & R2)]. split.
  - intros r [->|Hr]%elem_of_cons; [| by apply Hxs].
    rewrite E2. apply elem_of_app. left. apply Hx. left.
  - exists (s1 ++ s2). split; [by rewrite E2, E1, app_assoc |].
    intros y [Hy|Hy]%elem_of_app.
    + destruct (R1 y Hy) as (r & ->%list_elem_of_singleton & Hr).
      exists x. split; [left | done].
    + destruct (R2 y Hy) as (r & Hr & Hry). exists r. split; [by right | done].
Qed.

Lemma forEach_post body stack xs :
  (∀ x st, x ∈ xs → inv stack st → visit_post stack [x] st (body x st)) →
  ∀ st, inv stack st → visit_post stack xs st (forEach body xs st).
Proof.
  induction xs as [|x xs IH]; intros Hbody st Hinv; simpl.
  - split; [done | apply grown_refl].
  - pose proof (Hbody x st (list_elem_of_here _ _) Hinv) as Hx.
    destruct (body x st) as [st'|e| |]; simpl in *; try done.
    destruct Hx as [Hinv' Hg].
    assert (Hrest : visit_post stack xs st' (forEach body xs st')).
    { apply IH; [| done]. intros y s Hy. apply Hbody. by right. }
    destruct (forEach body xs st') as [st''|e| |]; simpl in *; try done.
    destruct Hrest as [Hinv'' Hg']. split; [done |].
    by apply grown_cons with st'.
Qed.

Lemma inv_push stack st t :
  inv stack st → flag (visited st) t = false →
  inv (t :: stack)
    (mkSortState (result st) (visited st) (<[t := true]> (temp st))).
Proof.
  intros [Hv Hn Ho Ht Hd Hi] Hvis. split; simpl; try done.
  - intros k. destruct (decide (t = k)) as [->|Hne].
    + rewrite flag_insert_eq. split; [intros _; left | done].
    + rewrite flag_insert_ne by done. rewrite Ht.
      split; [by right |]. intros [?|?]%elem_of_cons; [congruence | done].
  - intros k [->|Hk]%elem_of_cons; [| by apply Hd].
    rewrite <- Hv. by rewrite Hvis.
Qed.

Lemma inv_pop stack st t :
  inv (t :: stack) st → t ∉ stack → t ∈ tables →
  (∀ d, E t d → d ∈ result st) →
  inv stack
    (mkSortState (result st ++ [t]) (<[t := true]> (visited st))
       (<[t := false]> (temp st))).
Proof.
  intros [Hv Hn Ho Ht Hd Hi] Hfresh Htab Hdeps.
  assert (Hnew : t ∉ result st) by (apply Hd; left).
  split; simpl.
  - intros k. rewrite elem_of_app, list_elem_of_singleton.
    destruct (decide (t = k)) as [->|Hne].
    + rewrite flag_insert_eq. split; [by right | done].
    + rewrite flag_insert_ne by done. rewrite Hv.
      split; [by left |]. intros [?|?]; [done | congruence].
  - apply NoDup_app. split; [done |]. split; [| apply NoDup_singleton].
    intros x Hx ->%list_elem_of_singleton. done.
  - intros a b [Ha| ->%list_elem_of_singleton]%elem_of_app Hab.
    + apply before_app_l. by apply Ho.
    + apply before_snoc; [by apply Hdeps | done].
  - intros k. destruct (decide (t = k)) as [->|Hne].
    + rewrite flag_insert_eq. split; [done |]. intros ?. done.
    + rewrite flag_insert_ne by done. rewrite Ht.
      split; [| by right]. intros [?|?]%elem_of_cons; [congruence | done].
  - intros k Hk [Hin| ->%list_elem_of_singleton]%elem_of_app; [| done].
    revert Hin. apply Hd. by right.
  - intros k [Hk| ->%list_elem_of_singleton]%elem_of_app; [by apply Hi | done].
Qed.

(** The closure [visit]: with the call depth that is left exceeding the
    number of tables not yet in progress, it returns; a returned error
    names a table on a cycle. *)
Lemma visit_post_holds depth : ∀ t st stack,
  inv stack st → NoDup stack → stack ⊆ tables → t ∈ tables →
  (∀ c, c ∈ stack → tc E c t) →
  (length tables < depth + length stack)%nat →
  visit_post stack [t] st (visit dependencies depth t st).
Proof.
  induction depth as [|depth IH]; intros t st stack Hinv Hnd Hsub Ht Hreach Hfuel.
  { assert (length stack ≤ length tables)%nat; [| lia].
    apply NoDup_submseteq in Hsub; [| done]. by apply submseteq_length. }
  simpl.
  destruct (flag (temp st) t) eqn:Htemp.
  { exists t. split; [done |]. apply Hreach. by apply (inv_temp Hinv). }
  destruct (flag (visited st) t) eqn:Hvis.
  { split; [done |]. split.
    - intros r ->%list_elem_of_singleton. by apply (inv_visited Hinv).
    - exists []. split; [by rewrite app_nil_r | by intros x ?%elem_of_nil]. }
  assert (Hfresh : t ∉ stack).
  { intros Hin. apply (inv_temp Hinv) in Hin. congruence. }
  set (st1 := mkSortState _ _ _).
  assert (Hloop : visit_post (t :: stack) (deps_of dependencies t) st1
            (forEach (visit dependencies depth) (deps_of dependencies t) st1)).
  { apply forEach_post; [| by apply inv_push].
    intros d s Hd Hs. apply IH; try done.
    - by constructor.
    - intros x [->|Hx]%elem_of_cons; [done | by apply Hsub].
    - by apply (edges_in_tables t).
    - intros c [->|Hc]%elem_of_cons; [by apply tc_once |].
      eapply tc_r; [by apply Hreach | done].
    - simpl. lia. }
  destruct (forEach _ _ st1) as [st2|e| |]; simpl in *; try done.
  destruct Hloop as [Hinv2 [Hdeps (suffix & Hres & Hsuf)]].
  split; [by apply inv_pop |]. split; simpl.
  - intros r ->%list_elem_of_singleton. apply elem_of_app. right. left.
  - exists (suffix ++ [t]). split; [by rewrite Hres, app_assoc |].
    intros x [Hx| ->%list_elem_of_singleton]%elem_of_app.
    + destruct (Hsuf x Hx) as (d & Hd & Hdx). exists t. split; [left |].
      by eapply rtc_l.
    + exists t. split; [left | done].
Qed.

Lemma inv_init : inv [] (mkSortState [] ∅ ∅).
Proof.
  split; simpl; try by intros k ?%elem_of_nil.
  - intros k. rewrite flag_empty. split; [done | by intros ?%elem_of_nil].
  - constructor.
  - by intros a b ?%elem_of_nil.
  - intros k. rewrite flag_empty. split; [done | by intros ?%elem_of_nil].
Qed.

Lemma visit_unvisited_post t st :
  t ∈ tables → inv [] st →
  visit_post [] [t] st
    (visit_unvisited dependencies (S (length tables)) t st).
Proof.
  intros Ht Hinv. unfold visit_unvisited.
  destruct (flag (visited st) t) eqn:Hvis.
  - split; [done |]. split.
    + intros r ->%list_elem_of_singleton. by apply (inv_visited Hinv).
    + exists []. split; [by rewrite app_nil_r | by intros x ?%elem_of_nil].
  - apply visit_post_holds; try done.
    + constructor.
    + by intros x ?%elem_of_nil.
    + by intros c ?%elem_of_nil.
    + simpl. lia.
Qed.

(** The last loop, run over any part [ts] of the table list. *)
Lemma main_loop_post ts st :
  ts ⊆ tables → inv [] st →
  visit_post [] ts st
    (forEach (visit_unvisited dependencies (S (length tables))) ts st).
Proof.
  intros Hsub Hinv. apply forEach_post; [| done].
  intros x s Hx Hs. apply visit_unvisited_post; [by apply Hsub | done].
Qed.
End topo_sort_proofs.

(** ** The dependency map *)

Lemma table_deps_spec tables t fks d :
  d ∈ table_deps tables t fks ↔
  ∃ fk, fk ∈ fks ∧ ReferencedTable fk = d ∧ d ≠ t ∧ d ∈ tables.
Proof.
  induction fks as [|fk fks IH]; simpl.
  - split; [by intros ?%elem_of_nil | by intros (fk & ?%elem_of_nil & _)].
  - destruct (String.eqb_spec (ReferencedTable fk) t) as [Hself|Hother].
    + rewrite IH. split.
      * intros (fk' & Hin & Hrest). exists fk'. split; [by right | done].
      * intros (fk' & [->|Hin]%elem_of_cons & Href & Hne & Hd);
          [congruence | by exists fk'].
    + destruct (in_tables tables (ReferencedTable fk)) eqn:Hmem.
      * apply in_tables_spec in Hmem. rewrite elem_of_cons, IH. split.
        -- intros [->|(fk' & Hin & Hrest)].
           ++ exists fk. split; [left | done].
           ++ exists fk'. split; [by right | done].
        -- intros (fk' & [->|Hin]%elem_of_cons & Href & Hne & Hd);
             [by left | right; by exists fk'].
      * rewrite IH. split.
        -- intros (fk' & Hin & Hrest). exists fk'. split; [by right | done].
        -- intros (fk' & [->|Hin]%elem_of_cons & Href & Hne & Hd);
             [| by exists fk'].
           apply in_tables_spec in Hd. congruence.
Qed.

Lemma build_dependencies_lookup fk_query all todo m dependencies :
  build_dependencies fk_query all todo m = Ok dependencies →
  ∀ t, (t ∈ todo → ∃ fks, GetTableForeignKeys fk_query t = Ok fks ∧
                    dependencies !! t = Some (table_deps all t fks)) ∧
       (t ∉ todo → dependencies !! t = m !! t).
Proof.
  revert m. induction todo as [|x todo IH]; intros m; simpl.
  - intros [= <-] t. split; [by intros ?%elem_of_nil | done].
  - destruct (GetTableForeignKeys fk_query x) as [fks|e|p|] eqn:Hfk;
      simpl; try done.
    intros Hrest t. destruct (IH _ Hrest t) as [Hin Hout]. split.
    + intros Ht. destruct (decide (t ∈ todo)) as [Hlater|Hnot]; [by apply Hin |].
      apply elem_of_cons in Ht as [->|Ht]; [| done].
      exists fks. split; [done |]. rewrite (Hout Hnot). apply lookup_insert_eq.
    + intros [Hne Hnot]%not_elem_of_cons. rewrite (Hout Hnot).
      by apply lookup_insert_ne.
Qed.

Lemma edge_spec fk_query tables dependencies :
  build_dependencies fk_query tables tables ∅ = Ok dependencies →
  ∀ a b, edge dependencies a b ↔
    a ∈ tables ∧ b ≠ a ∧ b ∈ tables ∧
    ∃ fks fk, GetTableForeignKeys fk_query a = Ok fks ∧ fk ∈ fks ∧
              ReferencedTable fk = b.
Proof.
  intros Hbuild a b. unfold edge, deps_of.
  destruct (build_dependencies_lookup _ _ _ _ _ Hbuild a) as [Hin Hout].
  destruct (decide (a ∈ tables)) as [Ha|Ha].
  - destruct (Hin Ha) as (fks & Hfk & ->). simpl. rewrite table_deps_spec. split.
    + intros (fk & Hfkin & Href & Hne & Hb). repeat split; try done.
      by exists fks, fk.
    + intros (_ & Hne & Hb & fks' & fk & Hfk' & Hfkin & Href).
      rewrite Hfk in Hfk'. injection Hfk' as <-. by exists fk.
  - rewrite (Hout Ha), lookup_empty. simpl. split; [by intros ?%elem_of_nil |].
    by intros [? _].
Qed.

(** The whole of [topo_sort] on a dependency map built from the table list. *)
Lemma topo_sort_post fk_query tables dependencies :
  build_dependencies fk_query tables tables ∅ = Ok dependencies →
  sort_post dependencies tables [] tables (mkSortState [] ∅ ∅)
    (forEach (visit_unvisited dependencies (S (length tables))) tables
       (mkSortState [] ∅ ∅)).
Proof.
  intros Hbuild. apply main_loop_post; [| done | apply inv_init].
  intros a b Hab. by apply (edge_spec _ _ _ Hbuild) in Hab as (_ & _ & ? & _).
Qed.

Lemma tc_before dependencies order :
  (∀ a b, edge dependencies a b → before order b a) →
  ∀ a b, tc (edge dependencies) a b → before order b a.
Proof.
  intros Hedge a b Hab. induction Hab as [a b Hab|a b c Hab _ IH].
  - by apply Hedge.
  - eapply before_trans; [apply IH | by apply Hedge].
Qed.

(** ** Properties of SortTablesByDependencies *)

(** C1. When the retained dependency graph has no cycle, the sort succeeds
    and, for every retained edge (A depends on B), the position of B in the
    returned order is smaller than the position of A. *)
Theorem sort_places_dependencies_first fk_query tables dependencies :
  build_dependencies fk_query tables tables ∅ = Ok dependencies →
  acyclic dependencies →
  ∃ order, SortTablesByDependencies fk_query tables = Ok order ∧
    ∀ a b, edge dependencies a b → before order b a.
Proof.
  intros Hbuild Hacyclic. pose proof (topo_sort_post _ _ _ Hbuild) as Hpost.
  unfold SortTablesByDependencies, topo_sort. rewrite Hbuild. simpl.
  destruct (forEach _ tables _) as [st|e| |]; simpl in *; try done.
  - destruct Hpost as [Hinv [Hall _]]. exists (result st). split; [done |].
    intros a b Hab. apply (inv_order Hinv); [| done].
    apply Hall. by apply (edge_spec _ _ _ Hbuild) in Hab as (? & _).
  - destruct Hpost as (c & _ & Hc). by destruct (Hacyclic c).
Qed.

Lemma sort_Ok_inv fk_query tables order :
  SortTablesByDependencies fk_query tables = Ok order →
  ∃ dependencies st,
    build_dependencies fk_query tables tables ∅ = Ok dependencies ∧
    order = result st ∧ sort_inv dependencies tables [] st ∧
    sort_grown dependencies tables (mkSortState [] ∅ ∅) st.
Proof.
  unfold SortTablesByDependencies, topo_sort. intros Hsort.
  destruct (build_dependencies _ _ _ _) as [dependencies|e|p|] eqn:Hbuild;
    simpl in Hsort; try done.
  pose proof (topo_sort_post _ _ _ Hbuild) as Hpost.
  destruct (forEach _ tables _) as [st|e| |]; simpl in *; try done.
  injection Hsort as <-. destruct Hpost. by exists dependencies, st.
Qed.

Lemma sort_cyclic_fails fk_query tables dependencies :
  build_dependencies fk_query tables tables ∅ = Ok dependencies →
  (∃ t, on_cycle dependencies t) →
  ∃ c, SortTablesByDependencies fk_query tables = Err (circular c) ∧
       on_cycle dependencies c.
Proof.
  intros Hbuild [t Ht]. pose proof (topo_sort_post _ _ _ Hbuild) as Hpost.
  unfold SortTablesByDependencies, topo_sort. rewrite Hbuild. simpl.
  destruct (forEach _ tables _) as [st|e| |]; simpl in *; try done.
  - destruct Hpost as [Hinv [Hall _]]. exfalso.
    apply (before_irrefl (result st) t).
    apply (tc_before dependencies); [| done].
    intros a b Hab. apply (inv_order Hinv); [| done].
    apply Hall. by apply (edge_spec _ _ _ Hbuild) in Hab as (? & _).
  - destruct Hpost as (c & -> & Hc). by exists c.
Qed.

(** C3. The edges of the dependency map are exactly the foreign keys of a
    table of the list whose referenced table is another table of the list:
    no table depends on itself, and no table depends on a table outside
    the list. *)
Theorem dependencies_are_intra_run_non_self fk_query tables dependencies :
  build_dependencies fk_query tables tables ∅ = Ok dependencies →
  ∀ a b, edge dependencies a b ↔
    a ∈ tables ∧ b ≠ a ∧ b ∈ tables ∧
    ∃ fks fk, GetTableForeignKeys fk_query a = Ok fks ∧ fk ∈ fks ∧
              ReferencedTable fk = b.
Proof. apply edge_spec. Qed.

(** C9. A returned order holds every table of the input list, each exactly
    once, and nothing else; for an input list without repetition it is a
    permutation of the input. *)
Theorem sort_output_is_permutation fk_query tables order :
  SortTablesByDependencies fk_query tables = Ok order →
  NoDup order ∧ (∀ t, t ∈ order ↔ t ∈ tables) ∧
  (NoDup tables → order ≡ₚ tables).
Proof.
  intros (dependencies & st & Hbuild & -> & Hinv & Hall & _)%sort_Ok_inv.
  assert (Hsame : ∀ t, t ∈ result st ↔ t ∈ tables).
  { intros t. split; [apply (inv_in_tables Hinv) | apply Hall]. }
  split; [apply (inv_nodup Hinv) |]. split; [done |].
  intros Hnd. apply NoDup_Permutation; [apply (inv_nodup Hinv) | done..].
Qed.

(** C4, as amended. The order is a function of the table list and the
    foreign keys, and a table [a] listed before [b] comes out before [b]
    whenever [b] is not a direct or indirect dependency of [a] or of a
    table listed before [a]. *)
Theorem sort_keeps_input_order_of_unrelated fk_query tables dependencies order
    earlier a later b :
  build_dependencies fk_query tables tables ∅ = Ok dependencies →
  SortTablesByDependencies fk_query tables = Ok order →
  tables = earlier ++ a :: later →
  b ∈ tables →
  (∀ c, c ∈ earlier ++ [a] → ¬ rtc (edge dependencies) c b) →
  before order a b.
Proof.
  intros Hbuild Hsort -> Hb Hunrelated.
  unfold SortTablesByDependencies, topo_sort in Hsort.
  rewrite Hbuild in Hsort. simpl in Hsort.
  set (tables := earlier ++ a :: later) in *.
  assert (Hedges : ∀ x y, edge dependencies x y → y ∈ tables).
  { intros x y Hxy. by apply (edge_spec _ _ _ Hbuild) in Hxy as (_ & _ & ? & _). }
  replace tables with ((earlier ++ [a]) ++ later) in Hsort at 2
    by (subst tables; by rewrite <- app_assoc).
  rewrite forEach_app in Hsort.
  assert (Hsub1 : earlier ++ [a] ⊆ tables).
  { subst tables. intros x [?| ->%list_elem_of_singleton]%elem_of_app;
      apply elem_of_app; [by left | right; left]. }
  assert (Hsub2 : later ⊆ tables).
  { subst tables. intros x ?. apply elem_of_app. right. by right. }
  pose proof (main_loop_post dependencies tables Hedges _ _ Hsub1
                (inv_init dependencies tables)) as H1.
  destruct (forEach _ (earlier ++ [a]) _) as [st1|e| |]; simpl in *; try done.
  destruct H1 as [Hinv1 [Hall1 (s1 & Hres1 & Hs1)]].
  pose proof (main_loop_post dependencies tables Hedges _ _ Hsub2 Hinv1) as H2.
  destruct (forEach _ later st1) as [st2|e| |]; simpl in *; try done.
  injection Hsort as <-.
  destruct H2 as [Hinv2 [Hall2 (s2 & Hres2 & Hs2)]].
  assert (Ha1 : a ∈ result st1).
  { apply Hall1. apply elem_of_app. right. left. }
  assert (Hb1 : b ∉ result st1).
  { rewrite Hres1. simpl. intros Hin.
    destruct (Hs1 b Hin) as (r & Hr & Hrb). by apply (Hunrelated r). }
  assert (Hb2 : b ∈ later).
  { subst tables. apply elem_of_app in Hb as [Hb|Hb].
    - destruct (Hunrelated b); [apply elem_of_app; by left | done].
    - apply elem_of_cons in Hb as [->|Hb]; [| done].
      destruct (Hunrelated a); [apply elem_of_app; right; left | done]. }
  rewrite Hres2. apply before_split; [done..|].
  apply Hall2 in Hb2. rewrite Hres2 in Hb2.
  by apply elem_of_app in Hb2 as [?|?].
Qed.

(** ** The clean-up of cell values *)

Section sanitize_proofs.
Context {Time : Type} `{GoTime Time}.

Lemma bytes_text_eq (v : list byte) (text : string) :
  String.eqb (string_of_list_byte v) text = true ↔
  v = list_byte_of_string text.
Proof.
  rewrite String.eqb_eq. split.
  - intros <-. by rewrite list_byte_of_string_of_list_byte.
  - intros ->. by rewrite string_of_list_byte_of_string.
Qed.

Lemma zero_date_test (val : value Time) :
  zero_date val ↔
  match val with
  | VString v =>
      String.eqb v "0000-00-00" || String.eqb v "0000-00-00 00:00:00" = true
  | VBytes v =>
      String.eqb (string_of_list_byte v) "0000-00-00"
      || String.eqb (string_of_list_byte v) "0000-00-00 00:00:00" = true
  | VTime v => IsZero v || (Year v =? 0) = true
  | _ => False
  end.
Proof.
  destruct val; simpl; try done.
  - by rewrite orb_true_iff, !bytes_text_eq.
  - by rewrite orb_true_iff, !String.eqb_eq.
  - by rewrite orb_true_iff, Z.eqb_eq.
Qed.

Lemma birthday_test tableName colName :
  String.eqb tableName "AspNetUsers" && String.eqb colName "Birthday" = true ↔
  tableName = "AspNetUsers" ∧ colName = "Birthday".
Proof. by rewrite andb_true_iff, !String.eqb_eq. Qed.

(** C5. A zero date in the [Birthday] column of [AspNetUsers] becomes the
    text [1970-01-01]; the same zero date in any other table or column
    becomes null; every other value is passed on as it is. A written row
    holds, cell by cell, the cleaned-up cell of the row read. *)
Theorem sanitize_zero_date_policy tableName colName (val : value Time) :
  (zero_date val → tableName = "AspNetUsers" ∧ colName = "Birthday" →
     sanitize tableName colName val = VString "1970-01-01") ∧
  (zero_date val → ¬ (tableName = "AspNetUsers" ∧ colName = "Birthday") →
     sanitize tableName colName val = VNil) ∧
  (¬ zero_date val → sanitize tableName colName val = val) ∧
  (∀ columns values i,
     sanitize_values tableName columns values !! i =
     sanitize tableName (default "" (columns !! i)) <$> values !! i).
Proof.
  rewrite zero_date_test, <- birthday_test.
  repeat split.
  - intros Hz Hb. destruct val; simpl in *; try done; by rewrite Hz, Hb.
  - intros Hz Hb%not_true_is_false.
    destruct val; simpl in *; try done; by rewrite Hz, Hb.
  - intros Hz. destruct val; simpl in *; try done;
      by apply not_true_is_false in Hz; rewrite Hz.
  - intros columns values i. unfold sanitize_values.
    by rewrite list_lookup_imap.
Qed.
End sanitize_proofs.

(** ** What a call adds to the history *)

Section emits.
Context {Time : Type} `{GoTime Time}.

Variable P : event Time → Prop.

Lemma emits_ret {A} (a : A) : emits P (mret a).
Proof. intros tr. exists []. by rewrite app_nil_r. Qed.

Lemma emits_lift {A} (r : outcome A) : emits P (lift r).
Proof. intros tr. exists []. by rewrite app_nil_r. Qed.

Lemma emits_emit ev : P ev → emits P (emit ev).
Proof. intros Hev tr. exists [ev]. split; [done | by constructor]. Qed.

Lemma emits_dest_call ev answer : P ev → emits P (dest_call ev answer).
Proof.
  intros Hev tr. exists [ev]. unfold dest_call.
  split; [by destruct (answer tr) | by constructor].
Qed.

Lemma emits_bind {A B} (m : M A) (k : A → M B) :
  emits P m → (∀ a, emits P (k a)) → emits P (m ≫= k).
Proof.
  intros Hm Hk tr. destruct (Hm tr) as (ext1 & E1 & F1).
  unfold mbind, M_bind. destruct (m tr) as [[a|e|p|] tr1]; simpl in *;
    try by exists ext1.
  destruct (Hk a tr1) as (ext2 & E2 & F2). exists (ext1 ++ ext2).
  rewrite E2, E1, app_assoc. split; [done | by apply Forall_app].
Qed.

Lemma emits_wrap_err {A} prefix (m : M A) :
  emits P m → emits P (wrap_err prefix m).
Proof.
  intros Hm tr. destruct (Hm tr) as (ext & E & F). exists ext.
  unfold wrap_err. by destruct (m tr) as [[a|e|p|] tr1].
Qed.

Lemma emits_returned {A} (m : M A) : emits P m → emits P (returned m).
Proof.
  intros Hm tr. destruct (Hm tr) as (ext & E & F). exists ext.
  unfold returned. by destruct (m tr) as [[a|e|p|] tr1].
Qed.

Lemma emits_deferred {A} cleanup (m : M A) :
  P cleanup → emits P m → emits P (deferred cleanup m).
Proof.
  intros Hc Hm tr. destruct (Hm tr) as (ext & E & F).
  unfold deferred. destruct (m tr) as [[a|e|p|] tr1]; simpl in *;
    try (exists (ext ++ [cleanup]); rewrite E, app_assoc;
         split; [done | apply Forall_app; split; [done | by constructor]]).
  by exists ext.
Qed.

Variable config : MigrationConfig.
Variable src : source Time.
Variable dst : destination Time.

Hypothesis P_log : ∀ m, P (EvLog m).
Hypothesis P_select : ∀ c t l o, P (EvSelect c t l o).
Hypothesis P_insert : ∀ t v, P (EvInsert t v).
Hypothesis P_prepare : ∀ t c p, P (EvPrepare t c p).
Hypothesis P_close : ∀ t, P (EvStmtClose t).
Hypothesis P_create : ∀ s, P (EvCreateTable s).

Lemma emits_process_batch tableName columns rows migratedRows :
  emits P (process_batch dst tableName columns rows migratedRows).
Proof.
  revert migratedRows. induction rows as [|row rows IH]; intros m; simpl.
  - apply emits_ret.
  - apply emits_bind; [apply emits_lift |]. intros values.
    apply emits_bind; [| by intros _].
    apply emits_wrap_err, emits_dest_call, P_insert.
Qed.

Lemma emits_select_page columnNames tableName offset :
  emits P (select_page config src columnNames tableName offset).
Proof.
  unfold select_page. apply emits_bind; [apply emits_emit, P_select |].
  intros _. destruct (src_select _ _ _ _ _); [apply emits_lift | apply emits_ret].
Qed.

Lemma emits_page_loop fuel tableName columns columnNames totalRows offset m :
  emits P (page_loop config src dst fuel tableName columns columnNames
             totalRows offset m).
Proof.
  revert offset m. induction fuel as [|fuel IH]; intros offset m; simpl;
    destruct (offset <? totalRows); try apply emits_ret; try apply emits_lift.
  apply emits_bind; [apply emits_select_page |]. intros rows.
  apply emits_bind; [apply emits_process_batch |]. intros m'.
  apply emits_bind; [apply emits_emit, P_log | by intros _].
Qed.

Lemma emits_MigrateTableData fuel tableName :
  emits P (MigrateTableData config src dst fuel tableName).
Proof.
  unfold MigrateTableData.
  apply emits_bind; [apply emits_emit, P_log |]. intros _.
  apply emits_bind; [apply emits_lift |]. intros columns.
  apply emits_bind; [apply emits_lift |]. intros placeholders.
  apply emits_bind; [apply emits_lift |]. intros totalRows.
  apply emits_bind; [apply emits_emit, P_log |]. intros _.
  destruct (totalRows =? 0); [apply emits_emit, P_log |].
  apply emits_bind; [apply emits_wrap_err, emits_dest_call, P_prepare |].
  intros _. apply emits_deferred; [apply P_close |].
  apply emits_bind; [apply emits_page_loop |]. intros m.
  apply emits_emit, P_log.
Qed.

Lemma emits_MigrateTable fuel tableName :
  emits P (MigrateTable config src dst fuel tableName).
Proof.
  unfold MigrateTable.
  apply emits_bind; [apply emits_emit, P_log |]. intros _.
  apply emits_bind; [apply emits_lift |]. intros createStmt.
  apply emits_bind.
  { unfold CreateTable. apply emits_wrap_err, emits_wrap_err, emits_dest_call, P_create. }
  intros _. apply emits_bind; [apply emits_emit, P_log |]. intros _.
  apply emits_wrap_err, emits_MigrateTableData.
Qed.
End emits.

(** ** The data mover on an empty table *)

Lemma make_placeholders_Ok n :
  n ≠ O → ∃ placeholders, make_placeholders n = Ok placeholders.
Proof. destruct n as [|n]; [done |]. intros _. simpl. by eexists. Qed.

Section mover_proofs.
Context {Time : Type} `{GoTime Time}.
Variable config : MigrationConfig.
Variable src : source Time.
Variable dst : destination Time.

(** C7. On a table whose row count is 0, [MigrateTableData] returns
    success after three log lines, the last one the note that the table
    is empty: no page is read, no row is written, and no insert
    statement is prepared. *)
Theorem empty_table_is_logged_noop fuel tableName columns history :
  GetTableColumns src tableName = Ok columns →
  columns ≠ [] →
  GetTableRowCount src tableName = Ok 0 →
  ∃ done,
    MigrateTableData config src dst fuel tableName history
      = (Ok tt, history ++ done) ∧
    done = [EvLog (LogStartData tableName);
            EvLog (LogRowsToMigrate tableName 0);
            EvLog (LogEmptyTable tableName)] ∧
    count_events is_select done = O ∧
    count_events is_insert done = O ∧
    count_events is_prepare done = O.
Proof.
  intros Hcols Hne Hcount.
  destruct (make_placeholders_Ok (length columns)) as [p Hp].
  { by destruct columns. }
  eexists. split; [| done].
  unfold MigrateTableData, Log, emit, lift, mbind, M_bind.
  rewrite Hcols, Hp, Hcount. simpl.
  by rewrite <- !app_assoc.
Qed.

(** *** The paging loop when every read and write succeeds *)

Lemma bind_Ok {A B} (m : @M Time A) (k : A → @M Time B) tr a tr' :
  m tr = (Ok a, tr') → (m ≫= k) tr = k a tr'.
Proof. intros Hm. unfold mbind, M_bind. by rewrite Hm. Qed.

Lemma wrap64_small z : min_int ≤ z ≤ max_int → wrap64 z = z.
Proof.
  unfold wrap64, min_int, max_int. intros Hz.
  rewrite Z.mod_small; lia.
Qed.

Variable tableName : string.
Variable columns : list string.

Lemma process_batch_all rows m tr :
  (∀ history values, dst_insert dst history tableName values = None) →
  Forall (λ cells, length cells = length columns) rows →
  ∃ m', process_batch dst tableName columns (map inr rows) m tr =
    (Ok m', tr ++ map (λ cells, EvInsert tableName
                                  (sanitize_values tableName columns cells)) rows).
Proof.
  intros Hins Hwf. revert m tr.
  induction Hwf as [|cells rows Hlen _ IH]; intros m tr; simpl.
  - exists m. unfold mret, M_ret. by rewrite app_nil_r.
  - apply Nat.eqb_eq in Hlen.
    destruct (IH (wrap64 (m + 1))
                (tr ++ [EvInsert tableName (sanitize_values tableName columns cells)]))
      as [m' Hm'].
    exists m'. unfold mbind, M_bind, lift, wrap_err, dest_call.
    rewrite Hlen, Hins. simpl.
    unfold mbind, M_bind in Hm'. rewrite Hm'. by rewrite <- app_assoc.
Qed.

Variable totalRows : Z.
Variable page : Z → list (list (value Time)).

Local Abbreviation columnNames := (String.concat "`, `" columns).

Hypothesis batch_positive : 1 ≤ BatchSize config.
Hypothesis no_wrap : totalRows + BatchSize config ≤ 2 ^ 63.
Hypothesis select_ok : ∀ offset, 0 ≤ offset < totalRows →
  src_select src columnNames tableName (BatchSize config) offset
    = inr (map inr (page offset)).
Hypothesis page_wf : ∀ offset, 0 ≤ offset < totalRows →
  Forall (λ cells, length cells = length columns) (page offset).
Hypothesis insert_ok : ∀ history values,
  dst_insert dst history tableName values = None.

Lemma history_of_inserts (rows : list (list (value Time))) :
  page_reads (map (λ cells, EvInsert tableName
                     (sanitize_values tableName columns cells)) rows) = [] ∧
  inserted_rows (map (λ cells, EvInsert tableName
                        (sanitize_values tableName columns cells)) rows)
    = map (sanitize_values tableName columns) rows.
Proof.
  induction rows as [|r rows [I1 I2]]; [done |].
  simpl. by rewrite I1, I2.
Qed.

Lemma page_loop_all extra n : ∀ offset m tr,
  0 ≤ offset →
  (n = O → totalRows ≤ offset) →
  (n ≠ O → offset + (Z.of_nat n - 1) * BatchSize config < totalRows
           ∧ totalRows ≤ offset + Z.of_nat n * BatchSize config) →
  ∃ m' done,
    page_loop config src dst (n + extra) tableName columns columnNames totalRows
      offset m tr = (Ok m', tr ++ done) ∧
    page_reads done =
      map (λ o, (BatchSize config, o)) (offsets n offset (BatchSize config)) ∧
    inserted_rows done =
      flat_map (λ o, map (sanitize_values tableName columns) (page o))
        (offsets n offset (BatchSize config)).
Proof.
  induction n as [|n IH]; intros offset m tr Hpos Hzero Hsucc.
  - exists m, []. specialize (Hzero eq_refl).
    assert (Hge : (offset <? totalRows) = false) by (apply Z.ltb_ge; lia).
    destruct extra; simpl; rewrite Hge; unfold mret, M_ret; by rewrite app_nil_r.
  - destruct Hsucc as [Hlast Hend]; [done |].
    assert (Hlt : offset < totalRows) by nia.
    simpl. destruct (Z.ltb_spec offset totalRows); [| lia].
    set (selected := EvSelect columnNames tableName (BatchSize config) offset
                     : event Time).
    set (inserts := map (λ cells, EvInsert tableName
                           (sanitize_values tableName columns cells))
                      (page offset)).
    destruct (process_batch_all (page offset) m (tr ++ [selected])
                insert_ok (page_wf offset (conj Hpos Hlt))) as [m1 Hbatch].
    fold inserts in Hbatch.
    rewrite wrap64_small by (unfold min_int, max_int; lia).
    set (logged := EvLog (LogProgress tableName m1 totalRows) : event Time).
    destruct (IH (offset + BatchSize config) m1
                (((tr ++ [selected]) ++ inserts) ++ [logged]))
      as (m' & rest & Hloop & Hreads & Hrows).
    { lia. }
    { intros ->. lia. }
    { intros Hn. split; [| lia].
      replace (offset + BatchSize config + (Z.of_nat n - 1) * BatchSize config)
        with (offset + (Z.of_nat (S n) - 1) * BatchSize config) by lia.
      done. }
    exists m', ([selected] ++ inserts ++ [logged] ++ rest). split.
    { unfold select_page. unfold mbind at 1, M_bind at 1.
      unfold mbind at 1, M_bind at 1. unfold emit at 1. simpl.
      rewrite select_ok by done. unfold mret at 1, M_ret at 1.
      unfold mbind at 1, M_bind at 1. fold selected. rewrite Hbatch.
      unfold mbind at 1, M_bind at 1. unfold Log, emit. simpl.
      fold logged. rewrite Hloop. by rewrite <- !app_assoc. }
    destruct (history_of_inserts (page offset)) as [P1 P2]. fold inserts in P1, P2.
    unfold page_reads, inserted_rows in *. rewrite !flat_map_app.
    rewrite P1, P2, Hreads, Hrows. done.
Qed.

Hypothesis columns_ok : GetTableColumns src tableName = Ok columns.
Hypothesis columns_nonempty : columns ≠ [].
Hypothesis count_ok : GetTableRowCount src tableName = Ok totalRows.
Hypothesis prepare_ok : ∀ history placeholders,
  dst_prepare dst history tableName columnNames placeholders = None.

Lemma ceil_div_iterations :
  1 ≤ totalRows →
  let n := Z.to_nat ((totalRows + BatchSize config - 1) / BatchSize config) in
  n ≠ O ∧
  0 + (Z.of_nat n - 1) * BatchSize config < totalRows ∧
  totalRows ≤ 0 + Z.of_nat n * BatchSize config.
Proof.
  intros Htotal. set (b := BatchSize config) in *.
  assert (Hq : 1 ≤ (totalRows + b - 1) / b).
  { apply Z.div_le_lower_bound; lia. }
  pose proof (Z.mul_div_le (totalRows + b - 1) b ltac:(lia)) as Hlo.
  pose proof (Z.mul_succ_div_gt (totalRows + b - 1) b ltac:(lia)) as Hhi.
  cbv zeta. rewrite Z2Nat.id by lia. split; [lia |]. split; nia.
Qed.

(** C6, as amended. With a row count of at least 1, a batch size of at
    least 1 and [totalRows + BatchSize] within the range of the 64-bit
    offset, and with every read and write succeeding, the loop reads
    exactly [ceil(totalRows / BatchSize)] pages, at the offsets 0,
    [BatchSize], [2 * BatchSize], ... whatever the number of rows a page
    returns, and writes every row of every page read, cleaned up cell by
    cell in the column order in which it was read. *)
Theorem paging_reads_every_window history fuel :
  1 ≤ totalRows →
  let n := Z.to_nat ((totalRows + BatchSize config - 1) / BatchSize config) in
  (n ≤ fuel)%nat →
  ∃ done,
    MigrateTableData config src dst fuel tableName history
      = (Ok tt, history ++ done) ∧
    page_reads done =
      map (λ o, (BatchSize config, o)) (offsets n 0 (BatchSize config)) ∧
    length (page_reads done) = n ∧
    inserted_rows done =
      flat_map (λ o, map (sanitize_values tableName columns) (page o))
        (offsets n 0 (BatchSize config)).
Proof.
  intros Htotal n Hfuel.
  destruct (ceil_div_iterations Htotal) as (Hn & Hlast & Hend). fold n in Hn, Hlast, Hend.
  destruct (make_placeholders_Ok (length columns)) as [ph Hph].
  { by destruct columns. }
  set (started := [EvLog (LogStartData tableName);
                   EvLog (LogRowsToMigrate tableName totalRows);
                   EvPrepare tableName columnNames ph] : list (event Time)).
  destruct (page_loop_all (fuel - n) n 0 0 (history ++ started))
    as (m' & looped & Hloop & Hreads & Hrows); [lia | done | done |].
  replace (n + (fuel - n))%nat with fuel in Hloop by lia.
  exists (started ++ looped ++
          [EvLog (LogCompletedData tableName m'); EvStmtClose tableName]).
  unfold started in *. clear started.
  split; [| split; [| split]].
  - unfold MigrateTableData, Log, emit, lift, mbind, M_bind, wrap_err,
      dest_call, deferred.
    rewrite columns_ok, Hph, count_ok. simpl.
    destruct (Z.eqb_spec totalRows 0) as [?|_]; [lia |].
    fold columnNames. rewrite prepare_ok.
    rewrite <- !app_assoc. simpl. rewrite <- !app_assoc in Hloop. simpl in Hloop.
    rewrite Hloop. by rewrite <- !app_assoc.
  - unfold page_reads in *. rewrite !flat_map_app, Hreads. simpl.
    by rewrite app_nil_r.
  - unfold page_reads in *. rewrite !flat_map_app, Hreads. simpl.
    rewrite app_nil_r, length_map. clear. generalize 0.
    induction n as [|k IH]; intros o; simpl; [done | by rewrite IH].
  - unfold inserted_rows in *. rewrite !flat_map_app, Hrows. simpl.
    by rewrite app_nil_r.
Qed.

End mover_proofs.

(** ** Termination of the paging loop *)

Section termination.
Context {Time : Type} `{GoTime Time}.
Variable config : MigrationConfig.
Variable src : source Time.
Variable dst : destination Time.

Lemma returns_bind {A B} (m : @M Time A) (k : A → @M Time B) :
  returns m → (∀ a, returns (k a)) → returns (m ≫= k).
Proof.
  intros Hm Hk tr. specialize (Hm tr). unfold mbind, M_bind.
  destruct (m tr) as [[a|e|p|] tr1]; simpl in *; try done. apply Hk.
Qed.

Lemma returns_wrap_err {A} prefix (m : @M Time A) :
  returns m → returns (wrap_err prefix m).
Proof.
  intros Hm tr. specialize (Hm tr). unfold wrap_err.
  by destruct (m tr) as [[a|e|p|] tr1].
Qed.

Lemma returns_deferred {A} cleanup (m : @M Time A) :
  returns m → returns (deferred cleanup m).
Proof.
  intros Hm tr. specialize (Hm tr). unfold deferred.
  by destruct (m tr) as [[a|e|p|] tr1].
Qed.

Lemma returns_dest_call ev answer : returns (dest_call (Time := Time) ev answer).
Proof. intros tr. unfold dest_call. by destruct (answer tr). Qed.

Lemma returns_lift {A} (r : outcome A) : r ≠ OutOfFuel → returns (lift (Time := Time) r).
Proof. by intros Hr tr. Qed.

Lemma returns_emit ev : returns (emit (Time := Time) ev).
Proof. by intros tr. Qed.

Lemma collect_returns {A B} msg (keep : A → list B) rows :
  collect msg keep rows ≠ OutOfFuel.
Proof.
  induction rows as [|[e|a] rows IH]; simpl; try done.
  by destruct (collect msg keep rows).
Qed.

Lemma returns_process_batch tableName columns rows m :
  returns (process_batch dst tableName columns rows m).
Proof.
  revert m. induction rows as [|row rows IH]; intros m; simpl; [done |].
  apply returns_bind.
  - apply returns_lift. destruct row as [e|cells]; simpl; [done |].
    by destruct (_ =? _)%nat.
  - intros values. apply returns_bind; [| by intros _].
    apply returns_wrap_err, returns_dest_call.
Qed.

Lemma returns_select_page columnNames tableName offset :
  returns (select_page config src columnNames tableName offset).
Proof.
  unfold select_page. apply returns_bind; [apply returns_emit |]. intros _.
  by destruct (src_select _ _ _ _ _).
Qed.

Lemma returns_page_loop tableName columns columnNames totalRows extra n :
  1 ≤ BatchSize config →
  totalRows + BatchSize config ≤ 2 ^ 63 →
  ∀ offset m, 0 ≤ offset →
    totalRows ≤ offset + Z.of_nat n * BatchSize config →
    returns (page_loop config src dst (n + extra) tableName columns columnNames
               totalRows offset m).
Proof.
  intros Hbatch Hwrap. induction n as [|n IH]; intros offset m Hpos Hend.
  - assert (Hge : (offset <? totalRows) = false) by (apply Z.ltb_ge; lia).
    destruct extra; simpl; by rewrite Hge.
  - simpl. destruct (Z.ltb_spec offset totalRows); [| done].
    apply returns_bind; [apply returns_select_page |]. intros rows.
    apply returns_bind; [apply returns_process_batch |]. intros m'.
    apply returns_bind; [apply returns_emit |]. intros _.
    rewrite wrap64_small by (unfold min_int, max_int; lia).
    apply IH; lia.
Qed.

Lemma returns_bind_lift {A B} (r : outcome A) (k : A → @M Time B) :
  r ≠ OutOfFuel → (∀ a, r = Ok a → returns (k a)) → returns (lift r ≫= k).
Proof.
  intros Hr Hk tr. unfold mbind, M_bind, lift.
  destruct r as [a|e|p|]; simpl; try done. by apply Hk.
Qed.

Lemma returns_MigrateTableData fuel tableName totalRows :
  1 ≤ BatchSize config →
  src_count src tableName = inr totalRows →
  totalRows + BatchSize config ≤ 2 ^ 63 →
  (Z.to_nat ((totalRows + BatchSize config - 1) / BatchSize config) ≤ fuel)%nat →
  returns (MigrateTableData config src dst fuel tableName).
Proof.
  intros Hbatch Hcount Hwrap Hfuel. unfold MigrateTableData.
  apply returns_bind; [apply returns_emit |]. intros _.
  apply returns_bind.
  { apply returns_lift. unfold GetTableColumns.
    destruct (src_show_columns _ _); [done | apply collect_returns]. }
  intros columns. apply returns_bind.
  { apply returns_lift. unfold make_placeholders. by destruct (String.length _). }
  intros placeholders. unfold GetTableRowCount. rewrite Hcount.
  apply returns_bind_lift; [done |]. intros ? [= <-].
  apply returns_bind; [apply returns_emit |]. intros _.
  destruct (totalRows =? 0); [apply returns_emit |].
  apply returns_bind; [apply returns_wrap_err, returns_dest_call |]. intros _.
  apply returns_deferred, returns_bind; [| intros; apply returns_emit].
  set (n := Z.to_nat _) in Hfuel.
  replace fuel with (n + (fuel - n))%nat by lia.
  apply returns_page_loop; [done | done | lia |].
  subst n. destruct (Z.le_gt_cases totalRows 0) as [Hle|Hgt]; [nia |].
  pose proof (Z.mul_succ_div_gt (totalRows + BatchSize config - 1)
                (BatchSize config) ltac:(lia)) as Hhi.
  assert (0 ≤ (totalRows + BatchSize config - 1) / BatchSize config).
  { apply Z.div_pos; lia. }
  rewrite Z2Nat.id by done. nia.
Qed.

Lemma page_loop_stuck tableName columns totalRows page fuel :
  BatchSize config = 0 →
  1 ≤ totalRows →
  src_select src (String.concat "`, `" columns) tableName 0 0
    = inr (map inr page) →
  Forall (λ cells, length cells = length columns) page →
  (∀ history values, dst_insert dst history tableName values = None) →
  ∀ m tr,
    (page_loop config src dst fuel tableName columns
       (String.concat "`, `" columns) totalRows 0 m tr).1 = OutOfFuel.
Proof.
  intros Hbatch Htotal Hsel Hwf Hins.
  induction fuel as [|fuel IH]; intros m tr; simpl;
    destruct (Z.ltb_spec 0 totalRows); try lia; [done |].
  unfold select_page. rewrite Hbatch, Hsel.
  unfold mbind at 1, M_bind at 1. unfold mbind at 1, M_bind at 1.
  unfold emit at 1. unfold mret at 1, M_ret at 1.
  unfold mbind at 1, M_bind at 1.
  destruct (process_batch_all dst tableName columns page m
              (tr ++ [EvSelect (String.concat "`, `" columns) tableName 0 0])
              Hins Hwf) as [m1 ->].
  unfold mbind at 1, M_bind at 1. unfold Log, emit. simpl. apply IH.
Qed.
End termination.

(** C10, as amended. For a batch size of at least 1 and a row count with
    [totalRows + BatchSize] within the range of the 64-bit offset, the
    paging loop ends after at most [ceil(totalRows / BatchSize)]
    iterations, whatever the two databases answer. For a batch size of 0
    and a positive row count the offset stays 0, and the migration of the
    table does not end as long as no read or write fails. *)
Theorem paging_terminates_for_positive_batch_only
    {Time : Type} `{GoTime Time} (config : MigrationConfig)
    (src : source Time) (dst : destination Time) (tableName : string)
    (totalRows : Z) :
  src_count src tableName = inr totalRows →
  (1 ≤ BatchSize config → totalRows + BatchSize config ≤ 2 ^ 63 →
   ∀ fuel history,
     (Z.to_nat ((totalRows + BatchSize config - 1) / BatchSize config)
        ≤ fuel)%nat →
     (MigrateTableData config src dst fuel tableName history).1 ≠ OutOfFuel) ∧
  (BatchSize config = 0 → 1 ≤ totalRows →
   ∀ columns page,
     GetTableColumns src tableName = Ok columns → columns ≠ [] →
     src_select src (String.concat "`, `" columns) tableName 0 0
       = inr (map inr page) →
     Forall (λ cells, length cells = length columns) page →
     (∀ history columnNames placeholders,
        dst_prepare dst history tableName columnNames placeholders = None) →
     (∀ history values, dst_insert dst history tableName values = None) →
     ∀ fuel history,
       (MigrateTableData config src dst fuel tableName history).1 = OutOfFuel).
Proof.
  intros Hcount. split.
  - intros Hbatch Hwrap fuel history Hfuel.
    by apply (returns_MigrateTableData config src dst fuel tableName totalRows).
  - intros Hbatch Htotal columns page Hcols Hne Hsel Hwf Hprep Hins fuel history.
    destruct (make_placeholders_Ok (length columns)) as [ph Hph].
    { by destruct columns. }
    unfold MigrateTableData, GetTableRowCount, Log, emit, lift, mbind, M_bind,
      wrap_err, dest_call, deferred.
    rewrite Hcols, Hph, Hcount. simpl.
    destruct (Z.eqb_spec totalRows 0) as [?|_]; [lia |].
    rewrite Hprep.
    pose proof (page_loop_stuck config src dst tableName columns totalRows page
                  fuel Hbatch Htotal Hsel Hwf Hins 0
                  (((history ++ [EvLog (LogStartData tableName)]) ++
                   [EvLog (LogRowsToMigrate tableName totalRows)]) ++
                   [EvPrepare tableName (String.concat "`, `" columns) ph]))
      as Hstuck.
    destruct (page_loop _ _ _ _ _ _ _ _ _ _ _) as [[m|e|p|] tr']; simpl in *;
      done.
Qed.

(** ** The foreign-key-check toggle in a run *)

Lemma count_events_app {Time} (p : event Time → bool) tr1 tr2 :
  count_events p (tr1 ++ tr2) = (count_events p tr1 + count_events p tr2)%nat.
Proof. unfold count_events. by rewrite filter_app, length_app. Qed.

Lemma count_events_none {Time} (p : event Time → bool) tr :
  Forall (λ ev, p ev = false) tr → count_events p tr = O.
Proof.
  unfold count_events. induction 1 as [|ev tr Hev _ IH]; [done |].
  rewrite filter_cons_False; [done | by rewrite Hev].
Qed.

Section toggle.
Context {Time : Type} `{GoTime Time}.
Variable config : MigrationConfig.
Variable src : source Time.
Variable dst : destination Time.

Lemma MigrateTable_never_enables fuel tableName tr :
  ∃ ext, (MigrateTable config src dst fuel tableName tr).2 = tr ++ ext ∧
         Forall (λ ev, is_enable ev = false) ext.
Proof. by apply emits_MigrateTable. Qed.

(** The table loop of [Migrate]: it calls [EnableForeignKeyChecks] only
    when a table has failed, then once and as the last thing it does. *)
Lemma migrate_tables_toggle fuel n todo : ∀ i tr r tr',
  migrate_tables config src dst fuel n i todo tr = (r, tr') →
  ∃ ext, tr' = tr ++ ext ∧
    match r with
    | Err e =>
        count_events is_enable ext = 1%nat ∧ last ext = Some EvEnableFK ∧
        ∃ tableName err history,
          tableName ∈ todo ∧
          (MigrateTable config src dst fuel tableName history).1 = Err err ∧
          e = "migration failed for table " +:+ tableName +:+ ": " +:+ err
    | _ => count_events is_enable ext = O
    end.
Proof.
  induction todo as [|tableName rest IH]; intros i tr r tr' Hrun.
  { injection Hrun as <- <-. exists []. by rewrite app_nil_r. }
  cbn [migrate_tables] in Hrun.
  set (logged := EvLog (LogMigratingTable (i + 1) n tableName) : event Time)
    in Hrun.
  destruct (MigrateTable_never_enables fuel tableName (tr ++ [logged]))
    as (ext1 & Hext1 & Hno).
  unfold mbind, M_bind, Log, emit, returned in Hrun. fold logged in Hrun.
  destruct (MigrateTable config src dst fuel tableName (tr ++ [logged]))
    as [[u|err|p|] tr1] eqn:Htable; simpl in Hext1; subst tr1.
  - apply IH in Hrun as (ext2 & -> & Hcase).
    exists ([logged] ++ ext1 ++ ext2). split; [by rewrite <- !app_assoc |].
    destruct r as [?|e| |];
      rewrite !count_events_app, (count_events_none _ ext1 Hno); simpl;
      [done | | done | done].
    destruct Hcase as (Hone & Hlast & t & e' & history & Ht & Hfail & ->).
    split; [done |]. split.
    + by rewrite app_comm_cons, last_app, Hlast.
    + exists t, e', history. split; [by right | done].
  - unfold EnableForeignKeyChecks, wrap_err, dest_call, lift in Hrun.
    assert (r = Err ("migration failed for table " +:+ tableName +:+ ": " +:+ err)
            ∧ tr' = ((tr ++ [logged]) ++ ext1) ++ [EvEnableFK]) as [-> ->].
    { destruct (dst_exec dst _ _); by injection Hrun as <- <-. }
    exists ([logged] ++ ext1 ++ [EvEnableFK]).
    split; [by rewrite <- !app_assoc |].
    rewrite !count_events_app, (count_events_none _ ext1 Hno).
    split; [done |]. split; [by rewrite app_assoc, last_snoc |].
    exists tableName, err, (tr ++ [logged]). rewrite Htable.
    split; [left | done].
  - injection Hrun as <- <-. exists ([logged] ++ ext1).
    split; [by rewrite <- !app_assoc |].
    by rewrite !count_events_app, (count_events_none _ ext1 Hno).
  - injection Hrun as <- <-. exists ([logged] ++ ext1).
    split; [by rewrite <- !app_assoc |].
    by rewrite !count_events_app, (count_events_none _ ext1 Hno).
Qed.

(** C8, as amended. In a run in which [DisableForeignKeyChecks] has
    succeeded, [EnableForeignKeyChecks] is called exactly once when all
    tables have been migrated and exactly once when the migration of a
    table has returned an error. In the second case the call is the last
    thing the run does: its own error is dropped, neither logged nor
    returned, and the error of the run is built from the error of the
    table alone. *)
Theorem enable_called_once_after_disable fuel tables sortedTables r tr :
  GetTables config src = Ok tables →
  SortTablesByDependencies (src_foreign_keys src) tables = Ok sortedTables →
  dst_exec dst (before_disable tables sortedTables) "SET FOREIGN_KEY_CHECKS = 0"
    = None →
  Migrate config src dst fuel [] = (r, tr) →
  match r with
  | Ok _ => count_events is_enable tr = 1%nat
  | Err e =>
      count_events is_enable tr = 1%nat ∧
      ((∃ tableName err history,
          tableName ∈ sortedTables ∧
          (MigrateTable config src dst fuel tableName history).1 = Err err ∧
          e = "migration failed for table " +:+ tableName +:+ ": " +:+ err ∧
          last tr = Some EvEnableFK)
       ∨
       (∃ history err,
          dst_exec dst history "SET FOREIGN_KEY_CHECKS = 1" = Some err ∧
          e = "failed to enable foreign key checks: " +:+
              "failed to enable foreign key checks: " +:+ err))
  | Panic _ | OutOfFuel => count_events is_enable tr = O
  end.
Proof.
  intros Htables Hsort Hdisable Hrun.
  unfold Migrate, DisableForeignKeyChecks in Hrun.
  unfold mbind at 1 2 3 4 5 6 7 8, M_bind at 1 2 3 4 5 6 7 8 in Hrun.
  unfold Log, emit, lift, wrap_err, dest_call in Hrun.
  rewrite Htables in Hrun. simpl in Hrun. rewrite Hsort in Hrun. simpl in Hrun.
  change [EvLog LogStartMigration; EvLog (LogFoundTables (length tables) tables);
          EvLog LogAnalyzing; EvLog (LogSorted sortedTables); EvLog LogDisabling]
    with (before_disable (Time := Time) tables sortedTables) in Hrun.
  rewrite Hdisable in Hrun.
  simpl in Hrun.
  pose (tr1 := before_disable (Time := Time) tables sortedTables ++ [EvDisableFK]).
  change [EvLog LogStartMigration; EvLog (LogFoundTables (length tables) tables);
          EvLog LogAnalyzing; EvLog (LogSorted sortedTables); EvLog LogDisabling;
          EvDisableFK] with tr1 in Hrun.
  assert (Hnone : count_events is_enable tr1 = O) by done.
  clearbody tr1.
  unfold mbind at 1, M_bind at 1 in Hrun.
  destruct (migrate_tables config src dst fuel (length sortedTables) 0
              sortedTables tr1) as [r1 tr2] eqn:Hloop.
  apply migrate_tables_toggle in Hloop as (ext & -> & Hcase).
  destruct r1 as [u|e|p|].
  - unfold mbind, M_bind, EnableForeignKeyChecks, wrap_err, dest_call in Hrun.
    simpl in Hrun.
    destruct (dst_exec dst ((tr1 ++ ext) ++ [EvLog LogReenabling])
                "SET FOREIGN_KEY_CHECKS = 1") as [err|] eqn:Henable;
      injection Hrun as <- <-; rewrite !count_events_app, Hnone, Hcase;
      [| done].
    split; [done |]. right. by eexists _, err.
  - injection Hrun as <- <-. rewrite !count_events_app, Hnone.
    destruct Hcase as (Hone & Hlast & t & err & history & Ht & Hfail & ->).
    split; [by rewrite Hone |]. left. exists t, err, history.
    repeat split; try done. by rewrite last_app, Hlast.
  - injection Hrun as <- <-. by rewrite !count_events_app, Hnone, Hcase.
  - injection Hrun as <- <-. by rewrite !count_events_app, Hnone, Hcase.
Qed.

(** C2. When the retained dependency graph has a cycle,
    [SortTablesByDependencies] fails with the circular-dependency error
    naming a table that lies on a cycle, and [Migrate] returns that error
    after three log lines: nothing is created on the destination and the
    foreign-key checks are never disabled. *)
Theorem cycle_fails_before_any_change fuel tables dependencies :
  GetTables config src = Ok tables →
  build_dependencies (src_foreign_keys src) tables tables ∅ = Ok dependencies →
  (∃ t, on_cycle dependencies t) →
  ∃ c tr,
    on_cycle dependencies c ∧
    SortTablesByDependencies (src_foreign_keys src) tables = Err (circular c) ∧
    Migrate config src dst fuel []
      = (Err ("failed to sort tables by dependencies: " +:+ circular c), tr) ∧
    tr = [EvLog LogStartMigration; EvLog (LogFoundTables (length tables) tables);
          EvLog LogAnalyzing] ∧
    count_events on_destination tr = O ∧
    count_events is_create tr = O ∧
    count_events is_disable tr = O.
Proof.
  intros Htables Hbuild Hcycle.
  destruct (sort_cyclic_fails _ _ _ Hbuild Hcycle) as (c & Hsort & Hc).
  exists c. eexists. split; [done |]. split; [done |].
  split; [| done].
  unfold Migrate. unfold mbind, M_bind, Log, emit, lift, wrap_err.
  rewrite Htables. simpl. by rewrite Hsort.
Qed.
End toggle.

(** ** The properties on the example databases *)

Lemma orders_users_build :
  build_dependencies demo_foreign_keys ["Orders"; "Users"] ["Orders"; "Users"] ∅
    = Ok orders_users_deps.
Proof. vm_compute. reflexivity. Qed.

Lemma orders_users_edge a b :
  edge orders_users_deps a b → a = "Orders" ∧ b = "Users".
Proof.
  unfold edge, deps_of, orders_users_deps.
  destruct (decide (a = "Users")) as [->|Hu].
  { rewrite lookup_insert_eq. by intros ?%elem_of_nil. }
  rewrite lookup_insert_ne by done.
  destruct (decide (a = "Orders")) as [->|Ho].
  { rewrite lookup_insert_eq. by intros ->%list_elem_of_singleton. }
  rewrite lookup_insert_ne by done. by intros ?%elem_of_nil.
Qed.

Lemma orders_users_acyclic : acyclic orders_users_deps.
Proof.
  intros t Ht. unfold on_cycle in Ht.
  inversion Ht as [x y Hxy|x y z Hxy Hyz]; subst.
  - by apply orders_users_edge in Hxy as [-> ?].
  - apply orders_users_edge in Hxy as [-> ->].
    inversion Hyz as [x y Hxy|x y z Hxy _]; subst;
      by apply orders_users_edge in Hxy as [? _].
Qed.

Lemma sort_places_dependencies_first_example :
  build_dependencies demo_foreign_keys ["Orders"; "Users"] ["Orders"; "Users"] ∅
    = Ok orders_users_deps ∧
  acyclic orders_users_deps ∧
  ∃ order,
    SortTablesByDependencies demo_foreign_keys ["Orders"; "Users"] = Ok order ∧
    ∀ a b, edge orders_users_deps a b → before order b a.
Proof.
  split; [exact orders_users_build |]. split; [exact orders_users_acyclic |].
  exact (sort_places_dependencies_first demo_foreign_keys ["Orders"; "Users"]
           orders_users_deps orders_users_build orders_users_acyclic).
Defined.

Lemma a_b_build :
  build_dependencies demo_foreign_keys ["A"; "B"] ["A"; "B"] ∅ = Ok a_b_deps.
Proof. vm_compute. reflexivity. Qed.

Lemma a_b_cycle : ∃ t, on_cycle a_b_deps t.
Proof.
  exists "A". apply tc_l with "B"; [| apply tc_once];
    apply list_elem_of_In; vm_compute; auto.
Qed.

Lemma cycle_fails_before_any_change_example :
  GetTables (demo_config 100) (demo_source ["A"; "B"] 3) = Ok ["A"; "B"] ∧
  (∃ t, on_cycle a_b_deps t) ∧
  ∃ c tr,
    on_cycle a_b_deps c ∧
    SortTablesByDependencies demo_foreign_keys ["A"; "B"] = Err (circular c) ∧
    Migrate (demo_config 100) (demo_source ["A"; "B"] 3) willing 5 []
      = (Err ("failed to sort tables by dependencies: " +:+ circular c), tr) ∧
    tr = [EvLog LogStartMigration; EvLog (LogFoundTables 2 ["A"; "B"]);
          EvLog LogAnalyzing] ∧
    count_events on_destination tr = O ∧
    count_events is_create tr = O ∧
    count_events is_disable tr = O.
Proof.
  split; [reflexivity |]. split; [exact a_b_cycle |].
  exact (cycle_fails_before_any_change (demo_config 100)
           (demo_source ["A"; "B"] 3) willing 5 ["A"; "B"] a_b_deps
           eq_refl a_b_build a_b_cycle).
Defined.

Lemma dependencies_are_intra_run_non_self_example :
  build_dependencies demo_foreign_keys ["Orders"; "Users"] ["Orders"; "Users"] ∅
    = Ok orders_users_deps ∧
  (edge orders_users_deps "Orders" "Users" ↔
     "Orders" ∈ ["Orders"; "Users"] ∧ "Users" ≠ "Orders" ∧
     "Users" ∈ ["Orders"; "Users"] ∧
     ∃ fks fk, GetTableForeignKeys demo_foreign_keys "Orders" = Ok fks ∧
               fk ∈ fks ∧ ReferencedTable fk = "Users") ∧
  ¬ edge orders_users_deps "Orders" "Orders" ∧
  ¬ edge orders_users_deps "Orders" "Archive".
Proof.
  pose proof (dependencies_are_intra_run_non_self demo_foreign_keys
                ["Orders"; "Users"] orders_users_deps orders_users_build)
    as Hedges.
  split; [exact orders_users_build |]. split; [exact (Hedges _ _) |]. split.
  - intros (_ & Hne & _)%Hedges. by apply Hne.
  - intros (_ & _ & Hin & _)%Hedges.
    apply list_elem_of_In in Hin. vm_compute in Hin.
    destruct Hin as [?|[?|[]]]; discriminate.
Defined.

Lemma sort_output_is_permutation_example :
  SortTablesByDependencies demo_foreign_keys ["Orders"; "Users"]
    = Ok ["Users"; "Orders"] ∧
  NoDup ["Users"; "Orders"] ∧
  (∀ t, t ∈ ["Users"; "Orders"] ↔ t ∈ ["Orders"; "Users"]) ∧
  (NoDup ["Orders"; "Users"] → ["Users"; "Orders"] ≡ₚ ["Orders"; "Users"]).
Proof.
  split; [reflexivity |].
  exact (sort_output_is_permutation demo_foreign_keys ["Orders"; "Users"]
           ["Users"; "Orders"] eq_refl).
Defined.

Lemma c_a2_b2_build :
  build_dependencies demo_foreign_keys ["C"; "A2"; "B2"] ["C"; "A2"; "B2"] ∅
    = Ok c_a2_b2_deps.
Proof. vm_compute. reflexivity. Qed.

Lemma c_a2_b2_sorted :
  SortTablesByDependencies demo_foreign_keys ["C"; "A2"; "B2"]
    = Ok ["B2"; "C"; "A2"].
Proof. vm_compute. reflexivity. Qed.

Lemma c_a2_b2_no_edge_from t d :
  deps_of c_a2_b2_deps t = [] → ¬ edge c_a2_b2_deps t d.
Proof. unfold edge. intros ->. by intros ?%elem_of_nil. Qed.

(** C4, as stated, fails: [C] refers to [B2], so the visit of [C] emits
    [B2] first, although [A2] and [B2] are both ready from the start and
    [A2] is listed before [B2]. *)
Lemma ready_tables_keep_input_order_fails :
  SortTablesByDependencies demo_foreign_keys ["C"; "A2"; "B2"]
    = Ok ["B2"; "C"; "A2"] ∧
  ready c_a2_b2_deps [] "A2" ∧ ready c_a2_b2_deps [] "B2" ∧
  before ["C"; "A2"; "B2"] "A2" "B2" ∧
  ¬ before ["B2"; "C"; "A2"] "A2" "B2" ∧
  ¬ ready_tables_keep_input_order demo_foreign_keys ["C"; "A2"; "B2"].
Proof.
  assert (Hr1 : ready c_a2_b2_deps [] "A2").
  { split; [by intros ?%elem_of_nil |]. intros d Hd.
    by apply c_a2_b2_no_edge_from in Hd. }
  assert (Hr2 : ready c_a2_b2_deps [] "B2").
  { split; [by intros ?%elem_of_nil |]. intros d Hd.
    by apply c_a2_b2_no_edge_from in Hd. }
  assert (Hin : before ["C"; "A2"; "B2"] "A2" "B2").
  { exists 1%nat, 2%nat. split; [reflexivity |]. split; [reflexivity | lia]. }
  assert (Hout : ¬ before ["B2"; "C"; "A2"] "A2" "B2").
  { intros (i & j & Hi & Hj & Hlt). vm_compute in Hi, Hj.
    injection Hi as <-. injection Hj as <-. lia. }
  split; [exact c_a2_b2_sorted |]. split; [exact Hr1 |]. split; [exact Hr2 |].
  split; [exact Hin |]. split; [exact Hout |].
  intros Hclaim. apply Hout.
  exact (Hclaim c_a2_b2_deps ["B2"; "C"; "A2"] [] ["B2"; "C"; "A2"] "A2" "B2"
           c_a2_b2_build c_a2_b2_sorted eq_refl Hr1 Hr2 Hin).
Qed.

Lemma c_does_not_reach_a2 :
  ∀ c, c ∈ [] ++ ["C"] → ¬ rtc (edge c_a2_b2_deps) c "A2".
Proof.
  intros c ->%list_elem_of_singleton Hreach.
  apply rtc_inv in Hreach as [?|(y & Hy & Hreach)]; [done |].
  unfold edge in Hy.
  assert (deps_of c_a2_b2_deps "C" = ["B2"]) as E by (vm_compute; reflexivity).
  rewrite E in Hy. apply list_elem_of_singleton in Hy as ->.
  apply rtc_inv in Hreach as [?|(y & Hy & _)]; [done |].
  by apply c_a2_b2_no_edge_from in Hy.
Qed.

Lemma sort_keeps_input_order_of_unrelated_example :
  ["C"; "A2"; "B2"] = [] ++ "C" :: ["A2"; "B2"] ∧
  "A2" ∈ ["C"; "A2"; "B2"] ∧
  (∀ c, c ∈ [] ++ ["C"] → ¬ rtc (edge c_a2_b2_deps) c "A2") ∧
  before ["B2"; "C"; "A2"] "C" "A2".
Proof.
  assert (Hin : "A2" ∈ ["C"; "A2"; "B2"]) by (right; left).
  split; [reflexivity |]. split; [exact Hin |].
  split; [exact c_does_not_reach_a2 |].
  exact (sort_keeps_input_order_of_unrelated demo_foreign_keys ["C"; "A2"; "B2"]
           c_a2_b2_deps ["B2"; "C"; "A2"] [] "C" ["A2"; "B2"] "A2"
           c_a2_b2_build c_a2_b2_sorted eq_refl Hin c_does_not_reach_a2).
Defined.

Lemma sanitize_zero_date_policy_example :
  zero_date (VBytes (list_byte_of_string "0000-00-00 00:00:00") : value civil) ∧
  zero_date (VTime (mkCivil 0 1 1 0)) ∧
  ¬ zero_date (VString "2001-02-03" : value civil) ∧
  sanitize "AspNetUsers" "Birthday"
    (VBytes (list_byte_of_string "0000-00-00 00:00:00") : value civil)
    = VString "1970-01-01" ∧
  sanitize "Orders" "Birthday" (VTime (mkCivil 0 1 1 0)) = VNil ∧
  sanitize "AspNetUsers" "Birthday" (VString "2001-02-03" : value civil)
    = VString "2001-02-03".
Proof.
  assert (Hz1 : zero_date
            (VBytes (list_byte_of_string "0000-00-00 00:00:00") : value civil))
    by (right; reflexivity).
  assert (Hz2 : zero_date (VTime (mkCivil 0 1 1 0))) by (right; reflexivity).
  assert (Hz3 : ¬ zero_date (VString "2001-02-03" : value civil))
    by (intros [?|?]; discriminate).
  assert (Hother : ¬ ("Orders" = "AspNetUsers" ∧ "Birthday" = "Birthday"))
    by (intros [? _]; discriminate).
  split; [exact Hz1 |]. split; [exact Hz2 |]. split; [exact Hz3 |].
  split; [| split].
  - exact (proj1 (sanitize_zero_date_policy "AspNetUsers" "Birthday" _) Hz1
             (conj eq_refl eq_refl)).
  - exact (proj1 (proj2 (sanitize_zero_date_policy "Orders" "Birthday" _))
             Hz2 Hother).
  - exact (proj1 (proj2 (proj2
             (sanitize_zero_date_policy "AspNetUsers" "Birthday" _))) Hz3).
Defined.

Lemma empty_table_is_logged_noop_example :
  GetTableColumns (demo_source ["Users"] 0) "Users" = Ok ["id"; "Birthday"] ∧
  GetTableRowCount (demo_source ["Users"] 0) "Users" = Ok 0 ∧
  ∃ done,
    MigrateTableData (demo_config 100) (demo_source ["Users"] 0) willing 5
      "Users" [] = (Ok tt, [] ++ done) ∧
    done = [EvLog (LogStartData "Users"); EvLog (LogRowsToMigrate "Users" 0);
            EvLog (LogEmptyTable "Users")] ∧
    count_events is_select done = O ∧
    count_events is_insert done = O ∧
    count_events is_prepare done = O.
Proof.
  split; [reflexivity |]. split; [reflexivity |].
  refine (empty_table_is_logged_noop (demo_config 100)
            (demo_source ["Users"] 0) willing 5 "Users" ["id"; "Birthday"] []
            eq_refl _ eq_refl).
  discriminate.
Defined.

Lemma demo_rows_wf n :
  Forall (λ cells : list (value civil), length cells = 2%nat) (demo_rows n).
Proof. unfold demo_rows. apply Forall_map, Forall_forall. done. Qed.

Lemma demo_rows_length n : length (demo_rows n) = n.
Proof. unfold demo_rows. by rewrite length_map, length_seq. Qed.

Lemma demo_select_250 offset :
  0 ≤ offset < 250 →
  src_select (demo_source ["Users"] 250) (String.concat "`, `" ["id"; "Birthday"])
    "Users" (BatchSize (demo_config 100)) offset
    = inr (map inr (page_of_250 offset)).
Proof.
  intros Hoff. unfold page_of_250.
  change (src_select _ _ _ _ _) with (limit_offset (demo_rows 250) 100 offset).
  unfold limit_offset. rewrite demo_rows_length.
  destruct (Z.ltb_spec offset 0) as [?|_]; [lia |].
  replace (Z.min 100 (Z.of_nat 250)) with 100 by lia.
  replace (Z.min offset (Z.of_nat 250)) with offset by lia.
  reflexivity.
Qed.

Lemma page_of_250_wf offset :
  0 ≤ offset < 250 →
  Forall (λ cells, length cells = length ["id"; "Birthday"]) (page_of_250 offset).
Proof. intros _. apply Forall_take, Forall_drop, demo_rows_wf. Qed.

Lemma paging_reads_every_window_example :
  1 ≤ 250 ∧
  map (λ o, length (page_of_250 o)) [0; 100; 200] = [100; 100; 50]%nat ∧
  ∃ done,
    MigrateTableData (demo_config 100) (demo_source ["Users"] 250) willing 3
      "Users" [] = (Ok tt, [] ++ done) ∧
    page_reads done = [(100, 0); (100, 100); (100, 200)] ∧
    length (page_reads done) = 3%nat ∧
    inserted_rows done =
      flat_map (λ o, map (sanitize_values "Users" ["id"; "Birthday"])
                       (page_of_250 o)) [0; 100; 200] ∧
    length (inserted_rows done) = 250%nat.
Proof.
  split; [lia |]. split; [vm_compute; reflexivity |].
  destruct (paging_reads_every_window (demo_config 100)
              (demo_source ["Users"] 250) willing "Users" ["id"; "Birthday"]
              250 page_of_250 ltac:(simpl; lia) ltac:(simpl; lia)
              demo_select_250 page_of_250_wf ltac:(done) eq_refl
              ltac:(discriminate) eq_refl ltac:(done) [] 3 ltac:(lia)
              ltac:(vm_compute; lia))
    as (done & Hrun & Hreads & Hlen & Hrows).
  exists done. split; [exact Hrun |]. split; [exact Hreads |].
  split; [exact Hlen |]. split; [exact Hrows |].
  rewrite Hrows. vm_compute. reflexivity.
Defined.

(** C6, as stated, fails where the offset wraps around: with the largest
    row count and a batch size of [2^62] the third window starts at
    [-2^63], after the two windows that [ceil(totalRows / BatchSize)]
    counts. *)
Lemma reads_ceil_pages_fails :
  Z.to_nat ((max_int + 2 ^ 62 - 1) / 2 ^ 62) = 2%nat ∧
  page_reads
    (MigrateTableData (demo_config (2 ^ 62)) overfull_source willing 3
       "Users" []).2
    = [(2 ^ 62, 0); (2 ^ 62, 2 ^ 62); (2 ^ 62, - 2 ^ 63)] ∧
  ¬ reads_ceil_pages (demo_config (2 ^ 62)) overfull_source willing "Users".
Proof.
  split; [vm_compute; reflexivity |]. split; [vm_compute; reflexivity |].
  intros Hclaim.
  destruct (MigrateTableData (demo_config (2 ^ 62)) overfull_source willing 3
              "Users" []) as [r tr] eqn:Hrun.
  destruct (Hclaim max_int 3%nat r tr eq_refl ltac:(done) ltac:(done) Hrun)
    as [Hle _].
  assert (Htr : tr = (MigrateTableData (demo_config (2 ^ 62)) overfull_source
                        willing 3 "Users" []).2) by (by rewrite Hrun).
  rewrite Htr in Hle. vm_compute in Hle. lia.
Qed.

(** The run on a destination that rejects the first row and then the
    statement that switches the checks back on. *)
Lemma failing_run :
  Migrate (demo_config 2) (demo_source ["Users"] 3) failing 5 [] =
  (Err ("migration failed for table Users: failed to migrate data for table "
        +:+ "Users: failed to insert row: disk full"),
   [EvLog LogStartMigration; EvLog (LogFoundTables 1 ["Users"]);
    EvLog LogAnalyzing; EvLog (LogSorted ["Users"]); EvLog LogDisabling;
    EvDisableFK; EvLog (LogMigratingTable 1 1 "Users");
    EvLog (LogStartTable "Users"); EvCreateTable "CREATE TABLE `Users` (..)";
    EvLog (LogCreatedSchema "Users"); EvLog (LogStartData "Users");
    EvLog (LogRowsToMigrate "Users" 3);
    EvPrepare "Users" "id`, `Birthday" "?,?";
    EvSelect "id`, `Birthday" "Users" 2 0; EvInsert "Users" [VInt64 0; VNil];
    EvStmtClose "Users"; EvEnableFK]).
Proof. vm_compute. reflexivity. Qed.

Lemma enable_called_once_after_disable_example :
  GetTables (demo_config 2) (demo_source ["Users"] 3) = Ok ["Users"] ∧
  SortTablesByDependencies demo_foreign_keys ["Users"] = Ok ["Users"] ∧
  dst_exec failing (before_disable ["Users"] ["Users"])
    "SET FOREIGN_KEY_CHECKS = 0" = None ∧
  count_events is_enable
    (Migrate (demo_config 2) (demo_source ["Users"] 3) failing 5 []).2 = 1%nat ∧
  last (Migrate (demo_config 2) (demo_source ["Users"] 3) failing 5 []).2
    = Some EvEnableFK.
Proof.
  split; [reflexivity |]. split; [reflexivity |]. split; [reflexivity |].
  pose proof (enable_called_once_after_disable (demo_config 2)
                (demo_source ["Users"] 3) failing 5 ["Users"] ["Users"] _ _
                eq_refl eq_refl eq_refl failing_run) as [Hone _].
  rewrite failing_run. split; [exact Hone | reflexivity].
Defined.

(** C8, as stated, fails in its last part: the error of the call that
    switches the checks back on is not logged. The run above ends with
    that call, which fails, and no log line follows it. *)
Lemma reenable_failure_is_logged_fails :
  (∃ pre, (Migrate (demo_config 2) (demo_source ["Users"] 3) failing 5 []).2
            = pre ++ [EvEnableFK] ∧
          dst_exec failing pre "SET FOREIGN_KEY_CHECKS = 1"
            = Some "server has gone away") ∧
  ¬ reenable_failure_is_logged (demo_config 2) (demo_source ["Users"] 3)
      failing 5.
Proof.
  rewrite failing_run. split.
  - eexists. split; [| reflexivity].
    exact (eq_refl : _ = [_; _; _; _; _; _; _; _; _; _; _; _; _; _; _; _]
                         ++ [EvEnableFK]).
  - intros Hclaim.
    destruct (Hclaim _ _ _ [] "server has gone away" failing_run
                (eq_refl : _ = [_; _; _; _; _; _; _; _; _; _; _; _; _; _; _; _]
                               ++ [EvEnableFK]) eq_refl)
      as [m Hm].
    by apply elem_of_nil in Hm.
Qed.

Lemma demo_select_zero_batch :
  src_select (demo_source ["Users"] 3) (String.concat "`, `" ["id"; "Birthday"])
    "Users" 0 0 = inr (map inr []).
Proof. reflexivity. Qed.

Lemma paging_terminates_for_positive_batch_only_example :
  src_count (demo_source ["Users"] 3) "Users" = inr 3 ∧
  (MigrateTableData (demo_config 2) (demo_source ["Users"] 3) failing 2
     "Users" []).1 ≠ OutOfFuel ∧
  (∀ fuel history,
     (MigrateTableData (demo_config 0) (demo_source ["Users"] 3) willing fuel
        "Users" history).1 = OutOfFuel).
Proof.
  split; [reflexivity |]. split.
  - exact (proj1 (paging_terminates_for_positive_batch_only (demo_config 2)
                    (demo_source ["Users"] 3) failing "Users" 3 eq_refl)
             ltac:(simpl; lia) ltac:(simpl; lia) 2%nat []
             ltac:(vm_compute; lia)).
  - exact (proj2 (paging_terminates_for_positive_batch_only (demo_config 0)
                    (demo_source ["Users"] 3) willing "Users" 3 eq_refl)
             eq_refl ltac:(lia) ["id"; "Birthday"] [] eq_refl
             ltac:(discriminate) demo_select_zero_batch ltac:(constructor)
             ltac:(done) ltac:(done)).
Defined.

(** C10, as stated, fails for a negative batch size: the migration of the
    table ends with an error when the source rejects the negative window,
    and ends with success when the source accepts it, as the offset wraps
    around from [-2^63] to [2^62]. *)
Lemma nonpositive_batch_never_ends_fails :
  (MigrateTableData (demo_config (-1)) (demo_source ["Users"] 3) willing 1
     "Users" []).1
    = Err "failed to select data from table Users: Error 1064: syntax error" ∧
  ¬ nonpositive_batch_never_ends (demo_config (-1)) (demo_source ["Users"] 3)
      willing "Users" ∧
  (MigrateTableData (demo_config (- 2 ^ 62)) lenient_source willing 3
     "Users" []).1 = Ok tt ∧
  page_reads
    (MigrateTableData (demo_config (- 2 ^ 62)) lenient_source willing 3
       "Users" []).2
    = [(- 2 ^ 62, 0); (- 2 ^ 62, - 2 ^ 62); (- 2 ^ 62, - 2 ^ 63)] ∧
  ¬ nonpositive_batch_never_ends (demo_config (- 2 ^ 62)) lenient_source
      willing "Users".
Proof.
  split; [vm_compute; reflexivity |]. split.
  { intros Hclaim.
    specialize (Hclaim 3 ltac:(simpl; lia) eq_refl ltac:(lia) 1%nat []).
    vm_compute in Hclaim. discriminate. }
  split; [vm_compute; reflexivity |]. split; [vm_compute; reflexivity |].
  intros Hclaim.
  specialize (Hclaim 1 ltac:(simpl; lia) eq_refl ltac:(lia) 3%nat []).
  vm_compute in Hclaim. discriminate.
Qed.

(** * Further properties of the code *)

(** ** The ordering of a list that is already in dependency order *)

Lemma before_in_prefix done t rest d :
  t ∉ done → before (done ++ t :: rest) d t → d ∈ done.
Proof.
  intros Ht (i & j & Hi & Hj & Hlt).
  rewrite index_of_app_r in Hj by done. simpl in Hj.
  rewrite String.eqb_refl in Hj. simpl in Hj. injection Hj as <-.
  destruct (decide (d ∈ done)) as [|Hd]; [done |].
  rewrite index_of_app_r in Hi by done.
  destruct (index_of d (t :: rest)); simpl in Hi; [| done].
  injection Hi as <-. lia.
Qed.

Lemma visit_settled dependencies depth done st t :
  settled done st → t ∉ done →
  (∀ d, edge dependencies t d → d ∈ done) →
  ∃ st', visit dependencies (S (S depth)) t st = Ok st' ∧
         settled (done ++ [t]) st'.
Proof.
  intros (Hres & Hvis & Htemp) Ht Hdeps.
  cbn [visit]. rewrite Htemp.
  destruct (flag (visited st) t) eqn:Hv; [by apply Hvis in Hv |].
  set (st1 := mkSortState _ _ _).
  assert (Hloop : ∀ ds, (∀ d, d ∈ ds → d ∈ done) →
            forEach (visit dependencies (S depth)) ds st1 = Ok st1).
  { induction ds as [|d ds IH]; intros Hds; [done |].
    assert (Hd : d ∈ done) by (apply Hds; left).
    cbn [forEach visit]. subst st1. cbn [temp visited].
    rewrite flag_insert_ne by (intros ->; done).
    rewrite Htemp. apply Hvis in Hd. rewrite Hd. simpl.
    apply IH. intros d' Hd'. apply Hds. by right. }
  rewrite Hloop by (intros d Hd; by apply Hdeps). simpl.
  eexists. split; [done |]. rewrite Hres. split; [done |]. split; simpl.
  - intros k. rewrite elem_of_app, list_elem_of_singleton.
    destruct (decide (t = k)) as [->|Hne].
    + rewrite flag_insert_eq. split; [by right | done].
    + rewrite flag_insert_ne by done. rewrite Hvis.
      split; [by left |]. intros [?|?]; [done | congruence].
  - intros k. destruct (decide (t = k)) as [->|Hne].
    + by rewrite flag_insert_eq.
    + by rewrite !flag_insert_ne.
Qed.

Lemma main_loop_settled dependencies depth todo : ∀ done st,
  settled done st → NoDup (done ++ todo) →
  (∀ a b, edge dependencies a b → before (done ++ todo) b a) →
  ∃ st', forEach (visit_unvisited dependencies (S (S depth))) todo st = Ok st' ∧
         settled (done ++ todo) st'.
Proof.
  induction todo as [|t todo IH]; intros done st Hst Hnd Hord.
  { exists st. by rewrite app_nil_r. }
  assert (Ht : t ∉ done).
  { apply NoDup_app in Hnd as (_ & Hdis & _). intros Hin.
    apply (Hdis _ Hin). left. }
  cbn [forEach]. unfold visit_unvisited at 1.
  destruct (flag (visited st) t) eqn:Hv.
  { destruct Hst as (_ & Hvis & _). by apply Hvis in Hv. }
  destruct (visit_settled dependencies depth done st t Hst Ht)
    as (st1 & -> & Hst1).
  { intros d Hd. apply (before_in_prefix done t todo); [done | by apply Hord]. }
  simpl. replace (done ++ t :: todo) with ((done ++ [t]) ++ todo) in *
    by (by rewrite <- app_assoc).
  by apply IH.
Qed.

Lemma topo_sort_ordered dependencies tables :
  NoDup tables →
  (∀ a b, edge dependencies a b → before tables b a) →
  topo_sort dependencies tables = Ok tables.
Proof.
  intros Hnd Hord. unfold topo_sort. destruct tables as [|t tables]; [done |].
  destruct (main_loop_settled dependencies (length tables) (t :: tables) []
              (mkSortState [] ∅ ∅)) as (st' & Hrun & Hres & _); try done.
  { split; [done |]. split; [| done]. intros k. rewrite flag_empty.
    split; [done | by intros ?%elem_of_nil]. }
  cbn [length]. rewrite Hrun. simpl. by rewrite Hres.
Qed.

Lemma build_dependencies_Ok fk_query all todo m :
  (∀ t, t ∈ todo → ∃ fks, GetTableForeignKeys fk_query t = Ok fks) →
  ∃ dependencies, build_dependencies fk_query all todo m = Ok dependencies.
Proof.
  revert m. induction todo as [|x todo IH]; intros m Hq; simpl; [by eexists |].
  destruct (Hq x (list_elem_of_here _ _)) as [fks ->]. simpl. apply IH.
  intros t Ht. apply Hq. by right.
Qed.

(** X1. A table list without repetition in which every table comes after
    the tables it depends on is returned as it is. *)
Theorem sort_keeps_an_ordered_list fk_query tables dependencies :
  build_dependencies fk_query tables tables ∅ = Ok dependencies →
  NoDup tables →
  (∀ a b, edge dependencies a b → before tables b a) →
  SortTablesByDependencies fk_query tables = Ok tables.
Proof.
  intros Hbuild Hnd Hord. unfold SortTablesByDependencies.
  rewrite Hbuild. simpl. by apply topo_sort_ordered.
Qed.

(** X2. Sorting is idempotent: the order returned for a table list is
    returned again when that order is the input. *)
Theorem sort_of_sorted_is_same fk_query tables order :
  SortTablesByDependencies fk_query tables = Ok order →
  SortTablesByDependencies fk_query order = Ok order.
Proof.
  intros (dependencies & st & Hbuild & -> & Hinv & Hall & _)%sort_Ok_inv.
  assert (Hsame : ∀ t, t ∈ result st ↔ t ∈ tables).
  { intros t. split; [apply (inv_in_tables Hinv) | apply Hall]. }
  destruct (build_dependencies_Ok fk_query (result st) (result st) ∅)
    as [dependencies' Hbuild'].
  { intros t Ht%Hsame.
    destruct (build_dependencies_lookup _ _ _ _ _ Hbuild t) as [Hin _].
    destruct (Hin Ht) as (fks & Hfks & _). by exists fks. }
  unfold SortTablesByDependencies. rewrite Hbuild'. simpl.
  apply topo_sort_ordered; [apply (inv_nodup Hinv) |].
  intros a b Hab. apply (edge_spec _ _ _ Hbuild') in Hab
    as (Ha & Hne & Hb & Hfk).
  apply (inv_order Hinv); [done |].
  apply (edge_spec _ _ _ Hbuild). by rewrite <- !Hsame.
Qed.

Lemma build_dependencies_fails fk_query all m e pre t post :
  (∀ p, p ∈ pre → ∃ fks, GetTableForeignKeys fk_query p = Ok fks) →
  GetTableForeignKeys fk_query t = Err e →
  build_dependencies fk_query all (pre ++ t :: post) m = Err e.
Proof.
  revert m. induction pre as [|p pre IH]; intros m Hpre Ht; simpl.
  - by rewrite Ht.
  - destruct (Hpre p (list_elem_of_here _ _)) as [fks ->]. simpl.
    apply IH; [| done]. intros q Hq. apply Hpre. by right.
Qed.

Section inspection_failure.
Context {Time : Type} `{GoTime Time}.
Variable config : MigrationConfig.
Variable src : source Time.
Variable dst : destination Time.

(** X3. When the foreign keys of a table cannot be read, and those of the
    tables listed before it can, [SortTablesByDependencies] returns the
    error of that table, and [Migrate] returns it after three log lines,
    before anything reaches the destination. *)
Theorem foreign_key_failure_stops_the_run fuel tables e pre t post :
  GetTables config src = Ok tables →
  tables = pre ++ t :: post →
  (∀ p, p ∈ pre → ∃ fks, GetTableForeignKeys (src_foreign_keys src) p = Ok fks) →
  GetTableForeignKeys (src_foreign_keys src) t = Err e →
  SortTablesByDependencies (src_foreign_keys src) tables = Err e ∧
  Migrate config src dst fuel [] =
    (Err ("failed to sort tables by dependencies: " +:+ e),
     [EvLog LogStartMigration; EvLog (LogFoundTables (length tables) tables);
      EvLog LogAnalyzing]).
Proof.
  intros Htables -> Hpre Ht.
  assert (Hsort : SortTablesByDependencies (src_foreign_keys src)
                    (pre ++ t :: post) = Err e).
  { unfold SortTablesByDependencies.
    by rewrite (build_dependencies_fails _ _ _ e pre t post Hpre Ht). }
  split; [done |].
  unfold Migrate, mbind, M_bind, Log, emit, lift, wrap_err.
  rewrite Htables. simpl. by rewrite Hsort.
Qed.
End inspection_failure.

(** ** The inspector calls *)

Lemma is_skipped_spec skipTables tableName :
  is_skipped skipTables tableName = true ↔ tableName ∈ skipTables.
Proof.
  induction skipTables as [|s skipTables IH]; simpl.
  - split; [done | by intros ?%elem_of_nil].
  - destruct (String.eqb_spec tableName s) as [->|Hne].
    + split; [intros _; left | done].
    + rewrite IH. split; [by right |].
      intros [?|?]%elem_of_cons; [congruence | done].
Qed.

Lemma collect_all {A B} msg (keep : A → list B) xs :
  collect msg keep (map inr xs) = Ok (flat_map keep xs).
Proof. induction xs as [|x xs IH]; simpl; [done | by rewrite IH]. Qed.

Lemma collect_scan_error {A B} msg (keep : A → list B) xs e rest :
  collect msg keep (map inr xs ++ inl e :: rest) = Err (msg +:+ e).
Proof. induction xs as [|x xs IH]; simpl; [done | by rewrite IH]. Qed.

Section inspector.
Context {Time : Type} `{GoTime Time}.
Variable config : MigrationConfig.
Variable src : source Time.

(** X4. When every row of the table listing scans, [GetTables] returns the
    listed names that are not in [SkipTables], in the order of the
    listing. *)
Theorem GetTables_filters_skipped names :
  src_show_tables src = inr (map inr names) →
  GetTables config src
    = Ok (filter (λ tableName, tableName ∉ SkipTables config) names).
Proof.
  intros Hrows. unfold GetTables. rewrite Hrows, collect_all. f_equal.
  clear Hrows. induction names as [|t names IH]; [done |]. simpl.
  destruct (is_skipped (SkipTables config) t) eqn:Hskip; simpl.
  - apply is_skipped_spec in Hskip.
    rewrite filter_cons_False by (intros Hn; by apply Hn). by rewrite IH.
  - rewrite filter_cons_True; [by rewrite IH |].
    intros Hin%is_skipped_spec. congruence.
Qed.

(** X5. A row that fails to scan makes the whole inspector call fail with
    the error of the first such row: the rows scanned before it are not
    returned. This holds for the table listing, the column listing and the
    foreign keys alike. *)
Theorem scan_error_fails_the_call tableName e :
  (∀ names rest,
     src_show_tables src = inr (map inr names ++ inl e :: rest) →
     GetTables config src = Err ("failed to scan table name: " +:+ e)) ∧
  (∀ fields rest,
     src_show_columns src tableName = inr (map inr fields ++ inl e :: rest) →
     GetTableColumns src tableName
       = Err ("failed to scan column info: " +:+ e)) ∧
  (∀ rows rest,
     src_foreign_keys src tableName = inr (map inr rows ++ inl e :: rest) →
     GetTableForeignKeys (src_foreign_keys src) tableName
       = Err ("failed to scan foreign key info: " +:+ e)).
Proof.
  unfold GetTables, GetTableColumns, GetTableForeignKeys.
  repeat split; intros xs rest ->; apply collect_scan_error.
Qed.

(** X6. When every row scans, [GetTableForeignKeys] returns one foreign
    key for each row whose referenced table and referenced column are both
    non-null, in order, each owned by the table asked for; the other rows
    are dropped. *)
Theorem GetTableForeignKeys_keeps_valid_rows tableName rows fks :
  src_foreign_keys src tableName = inr (map inr rows) →
  GetTableForeignKeys (src_foreign_keys src) tableName = Ok fks →
  Forall (λ fk, TableName fk = tableName) fks ∧
  map (λ fk, (ReferencedTable fk, ReferencedColumn fk)) fks
    = omap (λ r, rt ← fk_ref_table r; rc ← fk_ref_column r; Some (rt, rc)) rows.
Proof.
  intros Hrows. unfold GetTableForeignKeys. rewrite Hrows, collect_all.
  intros [= <-]. clear Hrows. induction rows as [|r rows [IH1 IH2]]; [done |].
  simpl. unfold fk_of_row at 1 3.
  destruct (fk_ref_table r) as [rt|], (fk_ref_column r) as [rc|]; simpl;
    try done.
  split; [by constructor | by rewrite IH2].
Qed.
End inspector.

Lemma substring_prefix x y :
  String.substring 0 (String.length x) (x +:+ y) = x.
Proof.
  induction x as [|a x IH]; simpl; [by destruct y | by rewrite IH].
Qed.

Lemma repeat_string_commas n :
  repeat_string "?," (S n) = String.concat "," (replicate (S n) "?") +:+ ",".
Proof.
  induction n as [|n IH]; [done |].
  change (repeat_string "?," (S (S n))) with ("?," +:+ repeat_string "?," (S n)).
  rewrite IH. done.
Qed.

(** X7. For a table of at least one column the placeholder list is one
    question mark for each column, separated by commas. *)
Theorem placeholders_one_per_column n :
  n ≠ O →
  make_placeholders n = Ok (String.concat "," (replicate n "?")).
Proof.
  destruct n as [|n]; [done |]. intros _. unfold make_placeholders.
  rewrite repeat_string_commas.
  set (x := String.concat "," (replicate (S n) "?")).
  assert (Hlen : String.length (x +:+ ",") = S (String.length x)).
  { clearbody x. induction x as [|a x IH]; simpl; [done | by rewrite IH]. }
  rewrite Hlen. by rewrite substring_prefix.
Qed.

(** ** The data mover: edge cases and failures *)

Lemma windows_cover {A B} (f : A → B) (rows : list A) (b : nat) n : ∀ o,
  b ≠ O → (length rows ≤ o + n * b)%nat →
  flat_map (λ offset, map f (take b (drop (Z.to_nat offset) rows)))
    (offsets n (Z.of_nat o) (Z.of_nat b))
  = map f (drop o rows).
Proof.
  induction n as [|n IH]; intros o Hb Hlen; simpl.
  - by rewrite drop_ge by lia.
  - rewrite Nat2Z.id. replace (Z.of_nat o + Z.of_nat b) with (Z.of_nat (o + b))
      by lia.
    rewrite IH by lia.
    rewrite <- map_app. f_equal.
    rewrite <- drop_drop. apply take_drop.
Qed.

Section mover_edges.
Context {Time : Type} `{GoTime Time}.
Variable config : MigrationConfig.
Variable src : source Time.
Variable dst : destination Time.
Variable tableName : string.
Variable columns : list string.

Local Abbreviation columnNames := (String.concat "`, `" columns).
Local Abbreviation placeholders :=
  (String.concat "," (replicate (length columns) "?")).
Local Abbreviation inserted :=
  (λ cells, EvInsert tableName (sanitize_values tableName columns cells)).

(** X8. On a table for which the column listing is empty,
    [MigrateTableData] panics after its first log line, on the slice
    expression that drops the last comma: the row count is not read and
    nothing reaches the destination. *)
Theorem table_without_columns_panics fuel history :
  GetTableColumns src tableName = Ok [] →
  MigrateTableData config src dst fuel tableName history
    = (Panic "runtime error: slice bounds out of range [:-1]",
       history ++ [EvLog (LogStartData tableName)]).
Proof.
  intros Hcols. unfold MigrateTableData, Log, emit, lift, mbind, M_bind.
  by rewrite Hcols.
Qed.

Hypothesis columns_ok : GetTableColumns src tableName = Ok columns.
Hypothesis columns_nonempty : columns ≠ [].

Lemma placeholders_ok : make_placeholders (length columns) = Ok placeholders.
Proof.
  clear columns_ok.
  assert (length columns ≠ O) as Hn by (by destruct columns).
  destruct (length columns) as [|n]; [done |]. unfold make_placeholders.
  rewrite repeat_string_commas.
  set (x := String.concat "," (replicate (S n) "?")).
  assert (Hlen : String.length (x +:+ ",") = S (String.length x)).
  { clearbody x. induction x as [|a x IH]; simpl; [done | by rewrite IH]. }
  rewrite Hlen. by rewrite substring_prefix.
Qed.

Variable totalRows : Z.
Hypothesis count_ok : GetTableRowCount src tableName = Ok totalRows.
Hypothesis not_empty : totalRows ≠ 0.

(** The history when the insert statement has been prepared. *)
Local Abbreviation prepared := (λ history : list (event Time),
  history ++ [EvLog (LogStartData tableName);
              EvLog (LogRowsToMigrate tableName totalRows);
              EvPrepare tableName columnNames placeholders]).

(** X9. When the destination refuses to prepare the insert statement,
    [MigrateTableData] returns that error at once: no page is read, no row
    is written and no statement is closed. *)
Theorem prepare_failure_stops_the_table fuel history e :
  dst_prepare dst
    (history ++ [EvLog (LogStartData tableName);
                 EvLog (LogRowsToMigrate tableName totalRows)])
    tableName columnNames placeholders = Some e →
  MigrateTableData config src dst fuel tableName history
    = (Err ("failed to prepare insert statement: " +:+ e), prepared history).
Proof.
  intros Hprep.
  unfold MigrateTableData, Log, emit, lift, mbind, M_bind, wrap_err, dest_call.
  rewrite columns_ok, placeholders_ok, count_ok. simpl.
  destruct (Z.eqb_spec totalRows 0) as [?|_]; [done |].
  rewrite <- !app_assoc. simpl. by rewrite Hprep.
Qed.

Hypothesis prepare_ok : ∀ history,
  dst_prepare dst history tableName columnNames placeholders = None.

(** The call after the statement has been prepared. *)
Lemma MigrateTableData_prepared fuel history :
  MigrateTableData config src dst fuel tableName history =
  deferred (EvStmtClose tableName)
    (page_loop config src dst fuel tableName columns columnNames totalRows 0 0
       ≫= λ migratedRows, Log (LogCompletedData tableName migratedRows))
    (prepared history).
Proof.
  unfold MigrateTableData.
  unfold mbind at 1 2 3 4 5 6, M_bind at 1 2 3 4 5 6.
  unfold Log at 1 2, emit at 1 2, lift, wrap_err, dest_call.
  rewrite columns_ok, placeholders_ok, count_ok. simpl.
  destruct (Z.eqb_spec totalRows 0) as [?|_]; [done |].
  rewrite prepare_ok. by rewrite <- !app_assoc.
Qed.

(** X10. Once the insert statement is prepared it is closed exactly once,
    as the last thing the call does, whether the paging ends with success,
    with an error or with a panic; nothing else is prepared or closed in
    between. *)
Theorem statement_closed_on_every_return fuel history r tr :
  MigrateTableData config src dst fuel tableName history = (r, tr) →
  r ≠ OutOfFuel →
  ∃ body,
    tr = prepared history ++ body ++ [EvStmtClose tableName] ∧
    Forall (λ ev, is_prepare ev = false ∧ is_close ev = false) body.
Proof.
  rewrite MigrateTableData_prepared. intros Hrun Hr.
  set (P := λ ev : event Time, is_prepare ev = false ∧ is_close ev = false).
  assert (Hbody : emits P
            (page_loop config src dst fuel tableName columns columnNames
               totalRows 0 0
             ≫= λ migratedRows, Log (LogCompletedData tableName migratedRows))).
  { apply emits_bind; [by apply emits_page_loop |]. intros m.
    by apply emits_emit. }
  destruct (Hbody (prepared history)) as (body & Hext & Hforall).
  exists body. split; [| done].
  unfold deferred in Hrun.
  destruct ((page_loop _ _ _ _ _ _ _ _ _ _ ≫= _) _) as [[u|e|p|] tr1];
    simpl in Hext; subst tr1; injection Hrun as <- <-;
    by rewrite <- ?app_assoc.
Qed.

Lemma process_batch_stops pre bad post e m tr :
  Forall (λ cells, length cells = length columns) (pre ++ [bad]) →
  (∀ history cells, cells ∈ pre →
     dst_insert dst history tableName (sanitize_values tableName columns cells)
       = None) →
  (∀ history,
     dst_insert dst history tableName (sanitize_values tableName columns bad)
       = Some e) →
  process_batch dst tableName columns (map inr (pre ++ bad :: post)) m tr
    = (Err ("failed to insert row: " +:+ e),
       tr ++ map inserted pre ++ [inserted bad]).
Proof.
  intros Hwf Hpre Hbad. revert m tr.
  induction pre as [|cells pre IH]; intros m tr; simpl.
  - apply Forall_cons in Hwf as [Hlen%Nat.eqb_eq _].
    unfold mbind, M_bind, lift, wrap_err, dest_call.
    by rewrite Hlen, Hbad.
  - apply Forall_cons in Hwf as [Hlen%Nat.eqb_eq Hwf].
    unfold mbind at 1 2, M_bind at 1 2. unfold lift, wrap_err, dest_call.
    rewrite Hlen, Hpre by left. simpl.
    rewrite IH; [by rewrite <- app_assoc | done |].
    intros history c Hc. apply Hpre. by right.
Qed.

(** X11. When the destination rejects a row of the first page, the call
    returns that error: the rows before it in the page have been written,
    the rows after it are not, no further page is read, and the statement
    is closed. *)
Theorem failing_insert_stops_the_table fuel history pre bad post e :
  0 < totalRows →
  src_select src columnNames tableName (BatchSize config) 0
    = inr (map inr (pre ++ bad :: post)) →
  Forall (λ cells, length cells = length columns) (pre ++ [bad]) →
  (∀ history cells, cells ∈ pre →
     dst_insert dst history tableName (sanitize_values tableName columns cells)
       = None) →
  (∀ history,
     dst_insert dst history tableName (sanitize_values tableName columns bad)
       = Some e) →
  MigrateTableData config src dst (S fuel) tableName history
    = (Err ("failed to insert row: " +:+ e),
       prepared history ++
       [EvSelect columnNames tableName (BatchSize config) 0] ++
       map inserted pre ++ [inserted bad; EvStmtClose tableName]).
Proof.
  intros Hpos Hsel Hwf Hpre Hbad. rewrite MigrateTableData_prepared.
  unfold deferred. cbn [page_loop].
  destruct (Z.ltb_spec 0 totalRows) as [_|?]; [| lia].
  unfold select_page.
  unfold mbind at 1 2 3 4, M_bind at 1 2 3 4. unfold emit at 1.
  rewrite Hsel. unfold mret at 1, M_ret at 1.
  unfold mbind at 1, M_bind at 1.
  rewrite (process_batch_stops pre bad post e) by done.
  by rewrite <- !app_assoc.
Qed.
End mover_edges.

(** ** The data mover on a table that does not change *)

Section mover_copy.
Context {Time : Type} `{GoTime Time}.
Variable config : MigrationConfig.
Variable src : source Time.
Variable dst : destination Time.
Variable tableName : string.
Variable columns : list string.
Variable rows : list (list (value Time)).

Local Abbreviation columnNames := (String.concat "`, `" columns).

Hypothesis batch_positive : 1 ≤ BatchSize config.
Hypothesis no_wrap : Z.of_nat (length rows) + BatchSize config ≤ 2 ^ 63.
Hypothesis columns_ok : GetTableColumns src tableName = Ok columns.
Hypothesis columns_nonempty : columns ≠ [].
Hypothesis count_ok :
  GetTableRowCount src tableName = Ok (Z.of_nat (length rows)).
Hypothesis select_window : ∀ offset, 0 ≤ offset < Z.of_nat (length rows) →
  src_select src columnNames tableName (BatchSize config) offset
    = inr (map inr (take (Z.to_nat (BatchSize config))
                      (drop (Z.to_nat offset) rows))).
Hypothesis rows_wf : Forall (λ cells, length cells = length columns) rows.
Hypothesis prepare_ok : ∀ history placeholders,
  dst_prepare dst history tableName columnNames placeholders = None.
Hypothesis insert_ok : ∀ history values,
  dst_insert dst history tableName values = None.

(** X12. For a source table that holds the rows [rows], answers each
    [LIMIT]/[OFFSET] window with the rows of that window and reports their
    number as its row count, a batch size of at least 1 (with the row
    count plus the batch size within the range of the offset) and a
    destination that accepts every call, [MigrateTableData] succeeds and
    writes every row exactly once, in the order of the table, each cleaned
    up cell by cell. *)
Theorem every_row_is_copied_once fuel history :
  (Z.to_nat ((Z.of_nat (length rows) + BatchSize config - 1)
             / BatchSize config) ≤ fuel)%nat →
  ∃ done,
    MigrateTableData config src dst fuel tableName history
      = (Ok tt, history ++ done) ∧
    inserted_rows done = map (sanitize_values tableName columns) rows.
Proof.
  intros Hfuel. set (totalRows := Z.of_nat (length rows)) in *.
  destruct (decide (totalRows = 0)) as [Hzero|Hnz].
  { assert (rows = []) as Hnil by (apply length_zero_iff_nil; lia).
    eexists. split.
    - unfold MigrateTableData, Log, emit, lift, mbind, M_bind.
      rewrite columns_ok,
        (placeholders_ok columns columns_nonempty), count_ok.
      fold totalRows. rewrite Hzero. simpl. by rewrite <- !app_assoc.
    - by rewrite Hnil. }
  assert (Hpos : 1 ≤ totalRows) by lia.
  set (b := Z.to_nat (BatchSize config)).
  set (page := λ offset : Z, take b (drop (Z.to_nat offset) rows)).
  set (n := Z.to_nat _) in Hfuel.
  destruct (ceil_div_iterations config totalRows batch_positive Hpos)
    as (Hn & Hlast & Hend). fold n in Hn, Hlast, Hend.
  rewrite (MigrateTableData_prepared config src dst tableName columns
             columns_ok columns_nonempty totalRows count_ok Hnz
             (λ h, prepare_ok h _)).
  set (started := _ ++ [_; _; _]).
  destruct (page_loop_all config src dst tableName columns totalRows page
              batch_positive no_wrap select_window
              ltac:(intros; apply Forall_take, Forall_drop, rows_wf)
              insert_ok (fuel - n) n 0 0 started)
    as (m' & looped & Hloop & _ & Hrows); [lia | done | done |].
  replace (n + (fuel - n))%nat with fuel in Hloop by lia.
  unfold deferred, mbind, M_bind, Log, emit. rewrite Hloop.
  eexists. split.
  { subst started. by rewrite <- !app_assoc. }
  unfold inserted_rows in *. rewrite !flat_map_app, Hrows. simpl.
  rewrite app_nil_r.
  replace (BatchSize config) with (Z.of_nat b) by (subst b; lia).
  rewrite (windows_cover _ rows b n 0); [done | subst b; lia |].
  subst b totalRows. nia.
Qed.
End mover_copy.

Section sanitize_twice.
Context {Time : Type} `{GoTime Time}.

Lemma sanitize_idempotent tableName colName (val : value Time) :
  sanitize tableName colName (sanitize tableName colName val)
    = sanitize tableName colName val.
Proof.
  destruct val as [| | | |v|v|v]; simpl; try done.
  - destruct (_ || _) eqn:Hz; simpl; [| by rewrite Hz].
    by destruct (_ && _).
  - destruct (_ || _) eqn:Hz; simpl; [| by rewrite Hz].
    by destruct (_ && _).
  - destruct (_ || _) eqn:Hz; simpl; [| by rewrite Hz].
    by destruct (_ && _).
Qed.

(** X13. Cleaning a row keeps its number of cells, and cleaning it a
    second time changes nothing: what the clean-up writes in place of a
    zero date is never itself a zero date. *)
Theorem sanitize_values_is_idempotent tableName columns
    (values : list (value Time)) :
  length (sanitize_values tableName columns values) = length values ∧
  sanitize_values tableName columns (sanitize_values tableName columns values)
    = sanitize_values tableName columns values ∧
  Forall (λ val, ¬ zero_date val) (sanitize_values tableName columns values).
Proof.
  unfold sanitize_values. split; [by rewrite length_imap |]. split.
  - apply list_eq. intros i. rewrite !list_lookup_imap.
    destruct (values !! i) as [val|]; simpl; [| done].
    by rewrite sanitize_idempotent.
  - apply Forall_lookup. intros i val. rewrite list_lookup_imap.
    destruct (values !! i) as [v|]; simpl; [| done]. intros [= <-].
    rewrite zero_date_test.
    destruct v as [| | | |v|v|v]; simpl; try (by intros []);
      (destruct (_ || _) eqn:Hz; simpl;
       [destruct (_ && _); simpl; by intros ? | by rewrite Hz]).
Qed.
End sanitize_twice.

(** ** The orchestration of a run *)

Lemma created_statements_none {Time} (tr : list (event Time)) :
  Forall (λ ev, is_create ev = false) tr → created_statements tr = [].
Proof.
  induction 1 as [|ev tr Hev _ IH]; [done |].
  unfold created_statements in *. simpl. rewrite IH. by destruct ev.
Qed.

Lemma count_events_zero {Time} (p : event Time → bool) tr :
  count_events p tr = O → Forall (λ ev, p ev = false) tr.
Proof.
  unfold count_events. induction tr as [|ev tr IH]; [done |].
  destruct (p ev) eqn:Hev.
  - rewrite filter_cons_True by done. done.
  - rewrite filter_cons_False by (by rewrite Hev). intros Hz.
    constructor; [done | by apply IH].
Qed.

Section orchestration.
Context {Time : Type} `{GoTime Time}.
Variable config : MigrationConfig.
Variable src : source Time.
Variable dst : destination Time.

Lemma emits_migrate_tables (P : event Time → Prop) fuel n todo :
  (∀ ev, ev ≠ EvDisableFK → P ev) →
  ∀ i, emits P (migrate_tables config src dst fuel n i todo).
Proof.
  intros HP. induction todo as [|t todo IH]; intros i; simpl.
  - apply emits_ret.
  - apply emits_bind; [by apply emits_emit, HP |]. intros _.
    apply emits_bind.
    { apply emits_returned, emits_MigrateTable; intros; by apply HP. }
    intros [err|u]; [| apply IH].
    apply emits_bind; [| intros; apply emits_lift].
    apply emits_returned. unfold EnableForeignKeyChecks.
    apply emits_wrap_err, emits_dest_call. by apply HP.
Qed.

(** What [MigrateTable] hands to [CreateTable]: the statement the source
    gives for the table, or nothing when the call fails before. *)
Lemma MigrateTable_creates fuel tableName tr :
  ∃ ext, (MigrateTable config src dst fuel tableName tr).2 = tr ++ ext ∧
    (created_statements ext = [schema_of src tableName] ∨
     created_statements ext = [] ∧
     ∃ e, (MigrateTable config src dst fuel tableName tr).1 = Err e).
Proof.
  unfold MigrateTable, GetTableSchema, schema_of.
  destruct (src_show_create_table src tableName) as [e|createStmt].
  { exists [EvLog (LogStartTable tableName)]. split; [done |]. right.
    split; [done |]. by eexists. }
  unfold mbind at 1 2 3, M_bind at 1 2 3.
  unfold Log at 1, emit at 1, lift, CreateTable, wrap_err at 1 2, dest_call.
  destruct (dst_exec dst _ createStmt) as [e|].
  { exists [EvLog (LogStartTable tableName); EvCreateTable createStmt].
    split; [by rewrite <- app_assoc | by left]. }
  set (tr1 := (tr ++ _) ++ _).
  assert (Hrest : emits (λ ev, is_create ev = false)
            (Log (LogCreatedSchema tableName) ≫= λ _ : (),
             wrap_err ("failed to migrate data for table " +:+ tableName +:+ ": ")
               (MigrateTableData config src dst fuel tableName))).
  { apply emits_bind; [by apply emits_emit |]. intros _.
    by apply emits_wrap_err, emits_MigrateTableData. }
  destruct (Hrest tr1) as (ext & Hext & Hnone).
  exists ([EvLog (LogStartTable tableName); EvCreateTable createStmt] ++ ext).
  rewrite Hext. subst tr1. split; [by rewrite <- !app_assoc |]. left.
  pose proof (created_statements_none ext Hnone) as Hc.
  unfold created_statements in *. rewrite flat_map_app. simpl.
  by rewrite Hc.
Qed.

Lemma migrate_tables_creates fuel n todo : ∀ i tr r tr',
  migrate_tables config src dst fuel n i todo tr = (r, tr') →
  ∃ ext, tr' = tr ++ ext ∧
    created_statements ext `prefix_of` map (schema_of src) todo ∧
    (r = Ok tt → created_statements ext = map (schema_of src) todo).
Proof.
  induction todo as [|tableName rest IH]; intros i tr r tr' Hrun.
  { injection Hrun as <- <-. exists []. by rewrite app_nil_r. }
  cbn [migrate_tables] in Hrun.
  set (logged := EvLog (LogMigratingTable (i + 1) n tableName) : event Time)
    in Hrun.
  destruct (MigrateTable_creates fuel tableName (tr ++ [logged]))
    as (ext1 & Hext1 & Hcreated).
  unfold mbind, M_bind, Log, emit, returned in Hrun. fold logged in Hrun.
  destruct (MigrateTable config src dst fuel tableName (tr ++ [logged]))
    as [[u|err|p|] tr1] eqn:Htable; simpl in Hext1, Hcreated; subst tr1.
  - destruct Hcreated as [Hone|[_ [e [=]]]].
    apply IH in Hrun as (ext2 & -> & Hpre & Hall).
    exists ([logged] ++ ext1 ++ ext2). split; [by rewrite <- !app_assoc |].
    unfold created_statements in *. rewrite !flat_map_app. simpl.
    rewrite Hone. simpl. split; [by apply prefix_cons |].
    intros Hr. by rewrite Hall.
  - unfold EnableForeignKeyChecks, wrap_err, dest_call, lift in Hrun.
    assert (r = Err ("migration failed for table " +:+ tableName +:+ ": " +:+ err)
            ∧ tr' = ((tr ++ [logged]) ++ ext1) ++ [EvEnableFK]) as [-> ->].
    { destruct (dst_exec dst _ _); by injection Hrun as <- <-. }
    exists ([logged] ++ ext1 ++ [EvEnableFK]).
    split; [by rewrite <- !app_assoc |]. split; [| done].
    unfold created_statements in *. rewrite !flat_map_app. simpl.
    rewrite app_nil_r.
    destruct Hcreated as [->|[-> _]]; [| apply prefix_nil].
    apply prefix_cons, prefix_nil.
  - injection Hrun as <- <-. exists ([logged] ++ ext1).
    split; [by rewrite <- !app_assoc |]. split; [| done].
    unfold created_statements in *. rewrite !flat_map_app. simpl.
    destruct Hcreated as [->|[-> _]]; [| apply prefix_nil].
    apply prefix_cons, prefix_nil.
  - injection Hrun as <- <-. exists ([logged] ++ ext1).
    split; [by rewrite <- !app_assoc |]. split; [| done].
    unfold created_statements in *. rewrite !flat_map_app. simpl.
    destruct Hcreated as [->|[-> _]]; [| apply prefix_nil].
    apply prefix_cons, prefix_nil.
Qed.

Variable tables sortedTables : list string.
Hypothesis tables_ok : GetTables config src = Ok tables.
Hypothesis sorted_ok :
  SortTablesByDependencies (src_foreign_keys src) tables = Ok sortedTables.

(** [Migrate] up to the call of [DisableForeignKeyChecks]. *)
Lemma Migrate_until_disable fuel :
  Migrate config src dst fuel [] =
  (wrap_err "failed to disable foreign key checks: " (DisableForeignKeyChecks dst)
   ≫= λ _ : (),
     migrate_tables config src dst fuel (length sortedTables) 0 sortedTables
     ≫= λ _ : (),
       Log LogReenabling ≫= λ _ : (),
       wrap_err "failed to enable foreign key checks: "
         (EnableForeignKeyChecks dst) ≫= λ _ : (),
       Log LogMigrationCompleted)
    (before_disable tables sortedTables).
Proof.
  unfold Migrate.
  unfold mbind at 1 2 3 4 5 6, M_bind at 1 2 3 4 5 6.
  unfold Log at 1 2 3 4 5, emit at 1 2 3 4 5, lift, wrap_err at 1 2.
  rewrite tables_ok. simpl. by rewrite sorted_ok.
Qed.

(** X14. When the destination refuses to disable the foreign-key checks,
    [Migrate] returns that error with nothing else done on the
    destination: no table is created and the checks are not switched back
    on. *)
Theorem disable_failure_stops_the_run fuel e :
  dst_exec dst (before_disable tables sortedTables) "SET FOREIGN_KEY_CHECKS = 0"
    = Some e →
  Migrate config src dst fuel [] =
    (Err ("failed to disable foreign key checks: " +:+
          "failed to disable foreign key checks: " +:+ e),
     before_disable tables sortedTables ++ [EvDisableFK]).
Proof.
  intros Hdisable. rewrite Migrate_until_disable.
  unfold mbind at 1, M_bind at 1.
  unfold DisableForeignKeyChecks, wrap_err, dest_call. by rewrite Hdisable.
Qed.

(** X15. The tables are created in the sorted order: in every run the
    creation statements handed to the destination are those of a front
    part of the sorted tables, in order and once each; in a run that
    succeeds they are those of all the sorted tables. *)
Theorem tables_are_created_in_sorted_order fuel r tr :
  Migrate config src dst fuel [] = (r, tr) →
  created_statements tr `prefix_of` map (schema_of src) sortedTables ∧
  (r = Ok tt → created_statements tr = map (schema_of src) sortedTables).
Proof.
  rewrite Migrate_until_disable. unfold mbind at 1, M_bind at 1.
  unfold DisableForeignKeyChecks, wrap_err at 1 2, dest_call.
  destruct (dst_exec dst _ "SET FOREIGN_KEY_CHECKS = 0") as [e|].
  { intros [= <- <-]. split; [apply prefix_nil | done]. }
  set (tr1 := before_disable tables sortedTables ++ [EvDisableFK]).
  unfold mbind at 1, M_bind at 1.
  destruct (migrate_tables config src dst fuel (length sortedTables) 0
              sortedTables tr1) as [r1 tr2] eqn:Hloop.
  apply migrate_tables_creates in Hloop as (ext & -> & Hpre & Hall).
  assert (Htr1 : ∀ more, created_statements ((tr1 ++ ext) ++ more)
                         = created_statements ext ++ created_statements more).
  { intros more. unfold created_statements. by rewrite !flat_map_app. }
  clearbody tr1.
  destruct r1 as [[]|e|p|].
  - unfold mbind, M_bind, Log, emit, EnableForeignKeyChecks, wrap_err,
      dest_call. simpl.
    destruct (dst_exec dst _ "SET FOREIGN_KEY_CHECKS = 1");
      intros [= <- <-]; rewrite <- ?app_assoc; rewrite (app_assoc tr1), Htr1;
      simpl; rewrite app_nil_r; (split; [done |]); [done | intros _].
    by apply Hall.
  - intros [= <- <-]. rewrite <- (app_nil_r (tr1 ++ ext)), Htr1, app_nil_r.
    by split.
  - intros [= <- <-]. rewrite <- (app_nil_r (tr1 ++ ext)), Htr1, app_nil_r.
    by split.
  - intros [= <- <-]. rewrite <- (app_nil_r (tr1 ++ ext)), Htr1, app_nil_r.
    by split.
Qed.

(** X16. [DisableForeignKeyChecks] is the first call of a run on the
    destination and is made once; in a run that succeeds
    [EnableForeignKeyChecks] is the last call on the destination, and all
    the table work lies between the two. *)
Theorem table_work_is_bracketed fuel r tr :
  Migrate config src dst fuel [] = (r, tr) →
  ∃ rest,
    tr = before_disable tables sortedTables ++ EvDisableFK :: rest ∧
    Forall (λ ev, is_disable ev = false) rest ∧
    (r = Ok tt →
     ∃ body,
       rest = body ++ [EvLog LogReenabling; EvEnableFK;
                       EvLog LogMigrationCompleted] ∧
       Forall (λ ev, is_enable ev = false) body).
Proof.
  rewrite Migrate_until_disable. unfold mbind at 1, M_bind at 1.
  unfold DisableForeignKeyChecks, wrap_err at 1 2, dest_call.
  destruct (dst_exec dst _ "SET FOREIGN_KEY_CHECKS = 0") as [e|].
  { intros [= <- <-]. exists []. by split. }
  set (tr1 := before_disable tables sortedTables ++ [EvDisableFK]).
  assert (Htr1 : ∀ more, tr1 ++ more
            = before_disable tables sortedTables ++ EvDisableFK :: more).
  { intros more. subst tr1. by rewrite <- app_assoc. }
  clearbody tr1.
  unfold mbind at 1, M_bind at 1.
  destruct (emits_migrate_tables (λ ev, is_disable ev = false) fuel
              (length sortedTables) sortedTables
              ltac:(by intros []) 0%nat tr1) as (ext & Hext & Hnone).
  destruct (migrate_tables config src dst fuel (length sortedTables) 0
              sortedTables tr1) as [r1 tr2] eqn:Hloop.
  simpl in Hext. subst tr2.
  apply migrate_tables_toggle in Hloop as (ext' & Heq & Hcase).
  apply app_inv_head in Heq as <-.
  destruct r1 as [[]|e|p|];
    try (intros [= <- <-]; exists ext; by rewrite Htr1).
  unfold mbind, M_bind, Log, emit, EnableForeignKeyChecks, wrap_err, dest_call.
  simpl.
  destruct (dst_exec dst _ "SET FOREIGN_KEY_CHECKS = 1"); intros [= <- <-];
    rewrite <- ?app_assoc, Htr1; simpl.
  - exists (ext ++ [EvLog LogReenabling; EvEnableFK]).
    split; [done |]. split; [| done].
    apply Forall_app. split; [done |]. by repeat constructor.
  - exists (ext ++ [EvLog LogReenabling; EvEnableFK;
                    EvLog LogMigrationCompleted]).
    split; [done |]. split.
    + apply Forall_app. split; [done |]. by repeat constructor.
    + intros _. exists ext. split; [done |]. by apply count_events_zero.
Qed.
End orchestration.

(** ** What the ordering can return *)

Lemma collect_never_panics {A B} msg (keep : A → list B) rows :
  ∀ p, collect msg keep rows ≠ Panic p.
Proof.
  induction rows as [|[e|a] rows IH]; intros p; simpl; try done.
  all: destruct (collect msg keep rows) as [l|e'|q|] eqn:Hc; simpl; try done.
  all: by destruct (IH q).
Qed.

Lemma build_dependencies_Err fk_query all todo m r :
  build_dependencies fk_query all todo m = r →
  match r with
  | Ok _ => True
  | Err e => ∃ t, t ∈ todo ∧ GetTableForeignKeys fk_query t = Err e
  | Panic _ | OutOfFuel => False
  end.
Proof.
  revert m. induction todo as [|x todo IH]; intros m; simpl.
  { by intros <-. }
  destruct (GetTableForeignKeys fk_query x) as [fks|e|p|] eqn:Hx; simpl.
  - intros Hr. specialize (IH _ Hr). destruct r as [?|e| |]; try done.
    destruct IH as (t & Ht & Hfail). exists t. split; [by right | done].
  - intros <-. exists x. split; [left | done].
  - unfold GetTableForeignKeys in Hx.
    destruct (fk_query x); [done | by apply collect_never_panics in Hx].
  - unfold GetTableForeignKeys in Hx.
    destruct (fk_query x); [done | by apply collect_returns in Hx].
Qed.

(** X17. [SortTablesByDependencies] always returns: the recursion of
    [visit] never goes deeper than the number of tables plus one, and
    nothing in it panics. What it returns is an order, the error of
    reading the foreign keys of a listed table, or the circular-dependency
    error naming a table that lies on a cycle of the dependency map. *)
Theorem sort_returns_order_or_named_error fk_query tables :
  match SortTablesByDependencies fk_query tables with
  | Ok order => ∀ t, t ∈ order ↔ t ∈ tables
  | Err e =>
      (∃ t, t ∈ tables ∧ GetTableForeignKeys fk_query t = Err e) ∨
      (∃ dependencies c,
         build_dependencies fk_query tables tables ∅ = Ok dependencies ∧
         e = circular c ∧ c ∈ tables ∧ on_cycle dependencies c)
  | Panic _ | OutOfFuel => False
  end.
Proof.
  unfold SortTablesByDependencies.
  pose proof (build_dependencies_Err fk_query tables tables ∅ _ eq_refl)
    as Hbuild.
  destruct (build_dependencies fk_query tables tables ∅)
    as [dependencies|e|p|] eqn:Hb; simpl; try done; [| by left].
  pose proof (topo_sort_post _ _ _ Hb) as Hpost. unfold topo_sort.
  destruct (forEach _ tables _) as [st|e| |]; simpl in *; try done.
  - destruct Hpost as [Hinv [Hall _]]. intros t.
    split; [apply (inv_in_tables Hinv) | apply Hall].
  - destruct Hpost as (c & -> & Hc). right. exists dependencies, c.
    repeat split; try done.
    apply tc_rtc_r with (z := c) in Hc; [| done].
    inversion Hc as [x y Hxy|x y z Hxy _]; subst;
      by apply (edge_spec _ _ _ Hb) in Hxy as (? & _).
Qed.

Section table_failures.
Context {Time : Type} `{GoTime Time}.
Variable config : MigrationConfig.
Variable src : source Time.
Variable dst : destination Time.

(** X18. A table whose creation statement cannot be read, or is rejected
    by the destination, gets no data: [MigrateTable] returns the error
    with the table name, and no insert statement is prepared, no page is
    read and no row is written. When the statement cannot be read, the
    destination is not called at all. *)
Theorem schema_failure_moves_no_data fuel tableName history e :
  (src_show_create_table src tableName = inl e →
   MigrateTable config src dst fuel tableName history
     = (Err ("failed to get schema for table " +:+ tableName +:+ ": " +:+ e),
        history ++ [EvLog (LogStartTable tableName)])) ∧
  (∀ createStmt,
     src_show_create_table src tableName = inr createStmt →
     dst_exec dst (history ++ [EvLog (LogStartTable tableName)]) createStmt
       = Some e →
     MigrateTable config src dst fuel tableName history
       = (Err (("failed to create table " +:+ tableName +:+ ": ") +:+
               "failed to create table: " +:+ e),
          history ++ [EvLog (LogStartTable tableName);
                      EvCreateTable createStmt])).
Proof.
  split.
  - intros Hschema.
    unfold MigrateTable, GetTableSchema, mbind, M_bind, Log, emit, lift.
    by rewrite Hschema.
  - intros createStmt Hschema Hcreate.
    unfold MigrateTable, GetTableSchema, CreateTable.
    unfold mbind at 1 2 3, M_bind at 1 2 3.
    unfold Log at 1, emit at 1, lift, wrap_err at 1 2, dest_call.
    rewrite Hschema, Hcreate. by rewrite <- app_assoc.
Qed.
End table_failures.

(** ** The further properties on the example databases *)

Lemma users_orders_build :
  build_dependencies demo_foreign_keys ["Users"; "Orders"] ["Users"; "Orders"] ∅
    = Ok orders_users_deps.
Proof. vm_compute. reflexivity. Qed.

Lemma users_orders_nodup : NoDup ["Users"; "Orders"].
Proof. apply (bool_decide_unpack _). vm_compute. exact I. Qed.

Lemma users_orders_ordered :
  ∀ a b, edge orders_users_deps a b → before ["Users"; "Orders"] b a.
Proof.
  intros a b [-> ->]%orders_users_edge. exists 0%nat, 1%nat.
  split; [reflexivity |]. split; [reflexivity | lia].
Qed.

Lemma sort_keeps_an_ordered_list_example :
  NoDup ["Users"; "Orders"] ∧
  (∀ a b, edge orders_users_deps a b → before ["Users"; "Orders"] b a) ∧
  SortTablesByDependencies demo_foreign_keys ["Users"; "Orders"]
    = Ok ["Users"; "Orders"].
Proof.
  split; [exact users_orders_nodup |]. split; [exact users_orders_ordered |].
  exact (sort_keeps_an_ordered_list demo_foreign_keys ["Users"; "Orders"]
           orders_users_deps users_orders_build users_orders_nodup
           users_orders_ordered).
Defined.

Lemma orders_users_sorted :
  SortTablesByDependencies demo_foreign_keys ["Orders"; "Users"]
    = Ok ["Users"; "Orders"].
Proof. vm_compute. reflexivity. Qed.

Lemma sort_of_sorted_is_same_example :
  SortTablesByDependencies demo_foreign_keys ["Orders"; "Users"]
    = Ok ["Users"; "Orders"] ∧
  SortTablesByDependencies demo_foreign_keys ["Users"; "Orders"]
    = Ok ["Users"; "Orders"].
Proof.
  split; [exact orders_users_sorted |].
  exact (sort_of_sorted_is_same demo_foreign_keys ["Orders"; "Users"]
           ["Users"; "Orders"] orders_users_sorted).
Defined.

Lemma users_keys_readable :
  ∀ p, p ∈ ["Users"] →
    ∃ fks, GetTableForeignKeys (src_foreign_keys unreadable_keys_source) p
             = Ok fks.
Proof. intros p ->%list_elem_of_singleton. by exists []. Qed.

Lemma foreign_key_failure_stops_the_run_example :
  GetTables (demo_config 100) unreadable_keys_source
    = Ok ["Users"; "Orders"; "Items"] ∧
  GetTableForeignKeys (src_foreign_keys unreadable_keys_source) "Orders"
    = Err "failed to get foreign keys for table Orders: access denied" ∧
  SortTablesByDependencies (src_foreign_keys unreadable_keys_source)
    ["Users"; "Orders"; "Items"]
    = Err "failed to get foreign keys for table Orders: access denied" ∧
  Migrate (demo_config 100) unreadable_keys_source willing 5 [] =
    (Err ("failed to sort tables by dependencies: " +:+
          "failed to get foreign keys for table Orders: access denied"),
     [EvLog LogStartMigration;
      EvLog (LogFoundTables 3 ["Users"; "Orders"; "Items"]);
      EvLog LogAnalyzing]).
Proof.
  split; [reflexivity |]. split; [reflexivity |].
  exact (foreign_key_failure_stops_the_run (demo_config 100)
           unreadable_keys_source willing 5 ["Users"; "Orders"; "Items"]
           "failed to get foreign keys for table Orders: access denied"
           ["Users"] "Orders" ["Items"] eq_refl eq_refl users_keys_readable
           eq_refl).
Defined.

Lemma GetTables_filters_skipped_example :
  src_show_tables (demo_source ["Users"; "Logs"; "Orders"] 3)
    = inr (map inr ["Users"; "Logs"; "Orders"]) ∧
  GetTables (mkMigrationConfig 100 ["Logs"])
    (demo_source ["Users"; "Logs"; "Orders"] 3)
    = Ok (filter (λ t, t ∉ ["Logs"]) ["Users"; "Logs"; "Orders"]) ∧
  filter (λ t : string, t ∉ ["Logs"]) ["Users"; "Logs"; "Orders"]
    = ["Users"; "Orders"].
Proof.
  split; [reflexivity |]. split; [| vm_compute; reflexivity].
  exact (GetTables_filters_skipped (mkMigrationConfig 100 ["Logs"])
           (demo_source ["Users"; "Logs"; "Orders"] 3)
           ["Users"; "Logs"; "Orders"] eq_refl).
Defined.

Lemma GetTableForeignKeys_keeps_valid_rows_example :
  src_foreign_keys (demo_source ["Orders"] 3) "Orders"
    = inr (map inr [mkFkRow (Some "user_id") (Some "Users") (Some "id");
                    mkFkRow (Some "parent_id") (Some "Orders") (Some "id");
                    mkFkRow (Some "archive_id") (Some "Archive") (Some "id")]) ∧
  ∃ fks,
    GetTableForeignKeys demo_foreign_keys "Orders" = Ok fks ∧
    Forall (λ fk, TableName fk = "Orders") fks ∧
    map (λ fk, (ReferencedTable fk, ReferencedColumn fk)) fks
      = [("Users", "id"); ("Orders", "id"); ("Archive", "id")].
Proof.
  split; [reflexivity |]. eexists. split; [reflexivity |].
  exact (GetTableForeignKeys_keeps_valid_rows (demo_source ["Orders"] 3)
           "Orders"
           [mkFkRow (Some "user_id") (Some "Users") (Some "id");
            mkFkRow (Some "parent_id") (Some "Orders") (Some "id");
            mkFkRow (Some "archive_id") (Some "Archive") (Some "id")]
           _ eq_refl eq_refl).
Defined.

Lemma placeholders_one_per_column_example :
  3%nat ≠ O ∧ make_placeholders 3 = Ok "?,?,?".
Proof.
  split; [discriminate |].
  exact (placeholders_one_per_column 3 ltac:(discriminate)).
Defined.

Lemma table_without_columns_panics_example :
  GetTableColumns no_columns_source "Users" = Ok [] ∧
  MigrateTableData (demo_config 100) no_columns_source willing 5 "Users" []
    = (Panic "runtime error: slice bounds out of range [:-1]",
       [] ++ [EvLog (LogStartData "Users")]).
Proof.
  split; [reflexivity |].
  exact (table_without_columns_panics (demo_config 100) no_columns_source
           willing "Users" 5 [] eq_refl).
Defined.

Lemma prepare_failure_stops_the_table_example :
  dst_prepare refusing_prepare
    ([] ++ [EvLog (LogStartData "Users"); EvLog (LogRowsToMigrate "Users" 3)])
    "Users" "id`, `Birthday" "?,?" = Some "unknown column" ∧
  MigrateTableData (demo_config 2) (demo_source ["Users"] 3) refusing_prepare 5
    "Users" []
    = (Err "failed to prepare insert statement: unknown column",
       [EvLog (LogStartData "Users"); EvLog (LogRowsToMigrate "Users" 3);
        EvPrepare "Users" "id`, `Birthday" "?,?"]).
Proof.
  split; [reflexivity |].
  exact (prepare_failure_stops_the_table (demo_config 2)
           (demo_source ["Users"] 3) refusing_prepare "Users"
           ["id"; "Birthday"] eq_refl ltac:(discriminate) 3 eq_refl
           ltac:(discriminate) 5 [] "unknown column" eq_refl).
Defined.

Lemma failing_table_run :
  MigrateTableData (demo_config 2) (demo_source ["Users"] 3) failing 5
    "Users" []
  = (Err "failed to insert row: disk full",
     [EvLog (LogStartData "Users"); EvLog (LogRowsToMigrate "Users" 3);
      EvPrepare "Users" "id`, `Birthday" "?,?";
      EvSelect "id`, `Birthday" "Users" 2 0; EvInsert "Users" [VInt64 0; VNil];
      EvStmtClose "Users"]).
Proof. vm_compute. reflexivity. Qed.

Lemma statement_closed_on_every_return_example :
  MigrateTableData (demo_config 2) (demo_source ["Users"] 3) failing 5
    "Users" []
  = (Err "failed to insert row: disk full",
     [EvLog (LogStartData "Users"); EvLog (LogRowsToMigrate "Users" 3);
      EvPrepare "Users" "id`, `Birthday" "?,?";
      EvSelect "id`, `Birthday" "Users" 2 0; EvInsert "Users" [VInt64 0; VNil];
      EvStmtClose "Users"]) ∧
  ∃ body : list (event civil),
    [EvLog (LogStartData "Users"); EvLog (LogRowsToMigrate "Users" 3);
     EvPrepare "Users" "id`, `Birthday" "?,?";
     EvSelect "id`, `Birthday" "Users" 2 0; EvInsert "Users" [VInt64 0; VNil];
     EvStmtClose "Users"]
    = ([] ++ [EvLog (LogStartData "Users"); EvLog (LogRowsToMigrate "Users" 3);
              EvPrepare "Users" "id`, `Birthday" "?,?"])
      ++ body ++ [EvStmtClose "Users"] ∧
    Forall (λ ev, is_prepare ev = false ∧ is_close ev = false) body.
Proof.
  split; [exact failing_table_run |].
  exact (statement_closed_on_every_return (demo_config 2)
           (demo_source ["Users"] 3) failing "Users" ["id"; "Birthday"]
           eq_refl ltac:(discriminate) 3 eq_refl ltac:(discriminate)
           ltac:(done) 5 [] _ _ failing_table_run ltac:(discriminate)).
Defined.

Lemma picky_accepts_row_0 :
  ∀ (history : list (event civil)) cells,
    cells ∈ [[VInt64 0; VString "0000-00-00"]] →
    dst_insert picky history "Users"
      (sanitize_values "Users" ["id"; "Birthday"] cells) = None.
Proof. by intros history cells ->%list_elem_of_singleton. Qed.

Lemma failing_insert_stops_the_table_example :
  src_select (demo_source ["Users"] 3) "id`, `Birthday" "Users" 3 0
    = inr (map inr ([[VInt64 0; VString "0000-00-00"]]
                    ++ [VInt64 1; VString "0000-00-00"]
                    :: [[VInt64 2; VString "0000-00-00"]])) ∧
  MigrateTableData (demo_config 3) (demo_source ["Users"] 3) picky 1
    "Users" []
  = (Err "failed to insert row: duplicate key",
     [EvLog (LogStartData "Users"); EvLog (LogRowsToMigrate "Users" 3);
      EvPrepare "Users" "id`, `Birthday" "?,?";
      EvSelect "id`, `Birthday" "Users" 3 0; EvInsert "Users" [VInt64 0; VNil];
      EvInsert "Users" [VInt64 1; VNil]; EvStmtClose "Users"]).
Proof.
  split; [reflexivity |].
  exact (failing_insert_stops_the_table (demo_config 3)
           (demo_source ["Users"] 3) picky "Users" ["id"; "Birthday"]
           eq_refl ltac:(discriminate) 3 eq_refl ltac:(discriminate)
           ltac:(done) 0 []
           [[VInt64 0; VString "0000-00-00"]] [VInt64 1; VString "0000-00-00"]
           [[VInt64 2; VString "0000-00-00"]] "duplicate key"
           ltac:(lia) eq_refl ltac:(by repeat constructor)
           picky_accepts_row_0 ltac:(done)).
Defined.

Lemma demo_select_window n b offset :
  0 ≤ b ≤ Z.of_nat n → 0 ≤ offset < Z.of_nat n →
  src_select (demo_source ["Users"] n) (String.concat "`, `" ["id"; "Birthday"])
    "Users" b offset
    = inr (map inr (take (Z.to_nat b) (drop (Z.to_nat offset) (demo_rows n)))).
Proof.
  intros Hb Hoff.
  change (src_select _ _ _ _ _) with (limit_offset (demo_rows n) b offset).
  unfold limit_offset. rewrite demo_rows_length.
  destruct (Z.ltb_spec b 0) as [?|_]; [lia |].
  destruct (Z.ltb_spec offset 0) as [?|_]; [lia |]. simpl.
  by rewrite !Z.min_l by lia.
Qed.

Lemma every_row_is_copied_once_example :
  1 ≤ BatchSize (demo_config 2) ∧
  GetTableRowCount (demo_source ["Users"] 5) "Users"
    = Ok (Z.of_nat (length (demo_rows 5))) ∧
  ∃ done,
    MigrateTableData (demo_config 2) (demo_source ["Users"] 5) willing 3
      "Users" [] = (Ok tt, [] ++ done) ∧
    inserted_rows done
      = map (sanitize_values "Users" ["id"; "Birthday"]) (demo_rows 5).
Proof.
  split; [simpl; lia |]. split; [reflexivity |].
  exact (every_row_is_copied_once (demo_config 2) (demo_source ["Users"] 5)
           willing "Users" ["id"; "Birthday"] (demo_rows 5)
           ltac:(simpl; lia) ltac:(vm_compute; discriminate) eq_refl
           ltac:(discriminate) eq_refl
           (λ offset Hoff, demo_select_window 5 2 offset ltac:(lia) Hoff)
           (demo_rows_wf 5) ltac:(done) ltac:(done) 3 []
           ltac:(vm_compute; lia)).
Defined.

Lemma disable_failure_stops_the_run_example :
  GetTables (demo_config 2) (demo_source ["Users"] 3) = Ok ["Users"] ∧
  dst_exec no_toggle (before_disable ["Users"] ["Users"])
    "SET FOREIGN_KEY_CHECKS = 0" = Some "access denied" ∧
  Migrate (demo_config 2) (demo_source ["Users"] 3) no_toggle 5 [] =
    (Err ("failed to disable foreign key checks: " +:+
          "failed to disable foreign key checks: " +:+ "access denied"),
     before_disable ["Users"] ["Users"] ++ [EvDisableFK]).
Proof.
  split; [reflexivity |]. split; [reflexivity |].
  exact (disable_failure_stops_the_run (demo_config 2)
           (demo_source ["Users"] 3) no_toggle ["Users"] ["Users"]
           eq_refl eq_refl 5 "access denied" eq_refl).
Defined.

Lemma good_run_succeeds :
  (Migrate (demo_config 2) (demo_source ["Orders"; "Users"] 3) willing 5 []).1
    = Ok tt.
Proof. vm_compute. reflexivity. Qed.

Lemma tables_are_created_in_sorted_order_example :
  SortTablesByDependencies demo_foreign_keys ["Orders"; "Users"]
    = Ok ["Users"; "Orders"] ∧
  created_statements
    (Migrate (demo_config 2) (demo_source ["Orders"; "Users"] 3) willing 5 []).2
    = ["CREATE TABLE `Users` (..)"; "CREATE TABLE `Orders` (..)"].
Proof.
  split; [exact orders_users_sorted |].
  exact (proj2 (tables_are_created_in_sorted_order (demo_config 2)
                  (demo_source ["Orders"; "Users"] 3) willing
                  ["Orders"; "Users"] ["Users"; "Orders"] eq_refl
                  orders_users_sorted 5 _ _ (surjective_pairing _))
           good_run_succeeds).
Defined.

Lemma table_work_is_bracketed_example :
  (Migrate (demo_config 2) (demo_source ["Orders"; "Users"] 3) willing 5 []).1
    = Ok tt ∧
  ∃ rest,
    (Migrate (demo_config 2) (demo_source ["Orders"; "Users"] 3) willing 5 []).2
      = before_disable ["Orders"; "Users"] ["Users"; "Orders"]
        ++ EvDisableFK :: rest ∧
    Forall (λ ev, is_disable ev = false) rest ∧
    ∃ body,
      rest = body ++ [EvLog LogReenabling; EvEnableFK;
                      EvLog LogMigrationCompleted] ∧
      Forall (λ ev, is_enable ev = false) body.
Proof.
  split; [exact good_run_succeeds |].
  destruct (table_work_is_bracketed (demo_config 2)
              (demo_source ["Orders"; "Users"] 3) willing
              ["Orders"; "Users"] ["Users"; "Orders"] eq_refl
              orders_users_sorted 5 _ _ (surjective_pairing _))
    as (rest & Htr & Hnone & Hok).
  exists rest. split; [exact Htr |]. split; [exact Hnone |].
  exact (Hok good_run_succeeds).
Defined.

Lemma scan_error_fails_the_call_example :
  GetTables (demo_config 2) scan_error_source
    = Err "failed to scan table name: invalid connection" ∧
  GetTableColumns scan_error_source "Users"
    = Err "failed to scan column info: invalid connection" ∧
  GetTableForeignKeys (src_foreign_keys scan_error_source) "Users"
    = Err "failed to scan foreign key info: invalid connection".
Proof.
  pose proof (scan_error_fails_the_call (demo_config 2) scan_error_source
                "Users" "invalid connection") as (Htables & Hcolumns & Hkeys).
  split; [exact (Htables ["Users"] [inr "Orders"] eq_refl) |].
  split; [exact (Hcolumns [Some "id"] [] eq_refl) |].
  exact (Hkeys [mkFkRow (Some "user_id") (Some "Users") (Some "id")] [] eq_refl).
Defined.

Lemma schema_failure_moves_no_data_example :
  MigrateTable (demo_config 2) scan_error_source willing 5 "Users" []
    = (Err "failed to get schema for table Users: table is gone",
       [EvLog (LogStartTable "Users")]) ∧
  MigrateTable (demo_config 2) (demo_source ["Users"] 3) already_there 5
    "Users" []
    = (Err ("failed to create table Users: " +:+
            "failed to create table: table already exists"),
       [EvLog (LogStartTable "Users");
        EvCreateTable "CREATE TABLE `Users` (..)"]).
Proof.
  split.
  - exact (proj1 (schema_failure_moves_no_data (demo_config 2)
                    scan_error_source willing 5 "Users" [] "table is gone")
             eq_refl).
  - exact (proj2 (schema_failure_moves_no_data (demo_config 2)
                    (demo_source ["Users"] 3) already_there 5 "Users" []
                    "table already exists")
             "CREATE TABLE `Users` (..)" eq_refl eq_refl).
Defined.
